(** * Support assistant front end: chat window, autoplay narration,
      screen sharing and the chat service fallback

    A shallow embedding of the client-side logic of the support assistant:
    - [ChatService.sendMessage] / [getFallbackResponse] (services/chatService.js),
    - the [ChatWindow] component (components/ChatWindow.jsx): its message
      list, the autoplay text-to-speech chain and the speech-input callback,
    - the [ScreenShare] component (components/ScreenShare.jsx): session
      start/stop and the screenshot upload handler.

    React state is modelled as a record of the [useState] cells; a render
    captures the record in its closures, a [useRef] cell is shared by all
    renders, and every [await] is a pending task that an event settles. *)

From Stdlib Require Import QArith DecimalString DecimalFacts DecimalPos.
From stdpp Require Import gmap strings list.

Local Open Scope nat_scope.

(** ** JavaScript strings

    A JS string is a sequence of UTF-16 code units. *)

Module JS.

Abbreviation jsstring := (list N).

(** An ASCII literal as a JS string. *)
Definition lit (s : string) : jsstring :=
  map Ascii.N_of_ascii (String.list_ascii_of_string s).

(** [String.prototype.startsWith] on code units. *)
Fixpoint startsWith (s w : jsstring) : bool :=
  match w, s with
  | [], _ => true
  | _ :: _, [] => false
  | c :: w', d :: s' => (c =? d)%N && startsWith s' w'
  end.

(** [String.prototype.includes]: does [w] occur in [s] at some position. *)
Fixpoint includes (s w : jsstring) : bool :=
  startsWith s w ||
  match s with
  | [] => false
  | _ :: s' => includes s' w
  end.

(** [w] occurs in [s] as a contiguous run of code units. *)
Definition substring_of (w s : jsstring) : Prop :=
  ∃ pre post, s = pre ++ w ++ post.

(** WhiteSpace and LineTerminator code points of ECMAScript, the ones
    [String.prototype.trim] strips. *)
Definition isWhiteSpace (c : N) : bool :=
  ( (c =? 9) || (c =? 10) || (c =? 11) || (c =? 12) || (c =? 13)
  || (c =? 32) || (c =? 160) || (c =? 5760)
  || ((8192 <=? c) && (c <=? 8202))
  || (c =? 8232) || (c =? 8233) || (c =? 8239) || (c =? 8287)
  || (c =? 12288) || (c =? 65279) )%N.

Fixpoint trimStart (s : jsstring) : jsstring :=
  match s with
  | c :: s' => if isWhiteSpace c then trimStart s' else s
  | [] => []
  end.

Definition trimEnd (s : jsstring) : jsstring := rev (trimStart (rev s)).

Definition trim (s : jsstring) : jsstring := trimEnd (trimStart s).

(** Truthiness of a string: only the empty string is falsy. *)
Definition truthy (s : jsstring) : bool :=
  match s with [] => false | _ => true end.

(** Decimal rendering of a non-negative integer, as in a template literal. *)
Definition decimal (n : N) : jsstring :=
  lit (NilZero.string_of_uint (N.to_uint n)).

(** [String.prototype.toLowerCase] restricted to the ASCII letters; the
    runtime's full Unicode case mapping agrees with it on ASCII text. *)
Definition asciiLower (s : jsstring) : jsstring :=
  map (λ c, if ((65 <=? c) && (c <=? 90))%N then (c + 32)%N else c) s.

End JS.

Import JS.

(** ** Messages *)

(** A message id is whatever JS value the producer put there: the greeting
    uses the number 1, generated ids are strings, and a producer that copies
    an absent field leaves [undefined].  A [Set] keeps the number 1 and the
    string made of the digit 1 apart. *)
Inductive MsgId :=
  | IdUndefined
  | IdNum (n : Z)
  | IdStr (s : jsstring).

Global Instance MsgId_eq_dec : EqDecision MsgId.
Proof. solve_decision. Defined.

Global Instance MsgId_countable : Countable MsgId.
Proof.
  refine (inj_countable'
    (λ i, match i with
          | IdUndefined => inl () | IdNum n => inr (inl n) | IdStr s => inr (inr s)
          end)
    (λ x, match x with
          | inl () => IdUndefined | inr (inl n) => IdNum n | inr (inr s) => IdStr s
          end) _).
  by intros [].
Defined.

Inductive Sender := user | ai.

Global Instance Sender_eq_dec : EqDecision Sender.
Proof. solve_decision. Defined.

(** Values stored under a metadata key. *)
Inductive MetaVal :=
  | MBool (b : bool)
  | MNum (z : Z)
  | MStr (s : jsstring).

Abbreviation Metadata := (gmap string MetaVal).

(** An entry of the chat window's [messages] array. *)
Record Message := mkMessage {
  id : MsgId;
  text : jsstring;
  sender : Sender;
  timestamp : option Z;
  metadata : Metadata
}.

(** ** services/chatService.js *)

Module ChatService.

(** The [message] object of a chat response, as the backend or the fallback
    builds it. *)
Record WireMessage := mkWire {
  w_id : MsgId;
  w_role : jsstring;
  w_content : jsstring;
  w_timestamp : option Z;
  w_metadata : option Metadata
}.

(** The body of a chat response. *)
Record ChatData := mkChatData {
  message : option WireMessage;
  conversation_id : option jsstring;
  should_request_screen_share : bool;
  confidence_score : Q
}.

(** What [apiClient.post('/api/v1/chat', ...)] settles to. *)
Inductive PostOutcome :=
  | PostResolved (data : ChatData)
  | PostRejected (errorMessage : jsstring).

(** What [sendMessage] resolves to. *)
Inductive SendResult :=
  | Success (data : ChatData)
  | Failure (error : jsstring) (fallback : ChatData).

Definition triggerWords : list jsstring :=
  [lit "help"; lit "stuck"; lit "error"; lit "problem"; lit "issue";
   lit "confused"; lit "not working"].

Definition fallbackResponses : list jsstring :=
  [lit "I'm having trouble connecting to my AI service right now. Let me try to help you with a basic response.";
   lit "Sorry, I'm experiencing some technical difficulties. Could you please try again in a moment?";
   lit "I'm currently unable to access my full capabilities. Please describe your issue and I'll do my best to help."].

Section WithRuntime.

(** [String.prototype.toLowerCase] of the runtime. *)
Variable toLowerCase : jsstring → jsstring.

(** [triggerWords.some(word => userMessage.toLowerCase().includes(word))] *)
Definition needsScreenShare (userMessage : jsstring) : bool :=
  existsb (λ word, includes (toLowerCase userMessage) word) triggerWords.

(** [getFallbackResponse(userMessage)]; [now] is [Date.now()] and [pick] is
    [Math.floor(Math.random() * fallbackResponses.length)]. *)
Definition getFallbackResponse (now : N) (pick : nat)
    (userMessage : jsstring) : ChatData :=
  let needs := needsScreenShare userMessage in
  {| message := Some
       {| w_id := IdStr (lit "fallback-" ++ decimal now);
          w_role := lit "assistant";
          w_content := nth pick fallbackResponses [];
          w_timestamp := Some (Z.of_N now);
          w_metadata := Some {[ "fallback" := MBool true;
                                "offline" := MBool true ]} |};
     conversation_id := Some (lit "offline-" ++ decimal now);
     should_request_screen_share := needs;
     confidence_score := if needs then 8 # 10 else 2 # 10 |}.

(** [sendMessage(message, conversationId, userId)] once the POST settled. *)
Definition sendMessage (now : N) (pick : nat) (post : PostOutcome)
    (message : jsstring) : SendResult :=
  match post with
  | PostResolved data => Success data
  | PostRejected err => Failure err (getFallbackResponse now pick message)
  end.

End WithRuntime.

End ChatService.

(** ** components/ChatWindow.jsx *)

Module ChatWindow.

Import ChatService.

(** The [useState] cells the message list and the autoplay chain read or
    write.  [messagesRef] stands for the identity of the [messages] array:
    every [setMessages] installs a new array, and the dependency list of an
    effect compares arrays by identity. *)
Record Hooks := mkHooks {
  messages : list Message;
  messagesRef : nat;
  inputMessage : jsstring;
  isLoading : bool;
  error : option jsstring;
  isAutoplayActive : bool;
  isPlayingAudio : bool
}.

Definition setMessages (f : list Message → list Message) (h : Hooks) : Hooks :=
  {| messages := f (messages h); messagesRef := S (messagesRef h);
     inputMessage := inputMessage h; isLoading := isLoading h;
     error := error h; isAutoplayActive := isAutoplayActive h;
     isPlayingAudio := isPlayingAudio h |}.

Definition setInputMessage (v : jsstring) (h : Hooks) : Hooks :=
  {| messages := messages h; messagesRef := messagesRef h;
     inputMessage := v; isLoading := isLoading h;
     error := error h; isAutoplayActive := isAutoplayActive h;
     isPlayingAudio := isPlayingAudio h |}.

Definition setIsLoading (v : bool) (h : Hooks) : Hooks :=
  {| messages := messages h; messagesRef := messagesRef h;
     inputMessage := inputMessage h; isLoading := v;
     error := error h; isAutoplayActive := isAutoplayActive h;
     isPlayingAudio := isPlayingAudio h |}.

Definition setError (v : option jsstring) (h : Hooks) : Hooks :=
  {| messages := messages h; messagesRef := messagesRef h;
     inputMessage := inputMessage h; isLoading := isLoading h;
     error := v; isAutoplayActive := isAutoplayActive h;
     isPlayingAudio := isPlayingAudio h |}.

Definition setIsAutoplayActive (v : bool) (h : Hooks) : Hooks :=
  {| messages := messages h; messagesRef := messagesRef h;
     inputMessage := inputMessage h; isLoading := isLoading h;
     error := error h; isAutoplayActive := v;
     isPlayingAudio := isPlayingAudio h |}.

Definition setIsPlayingAudio (v : bool) (h : Hooks) : Hooks :=
  {| messages := messages h; messagesRef := messagesRef h;
     inputMessage := inputMessage h; isLoading := isLoading h;
     error := error h; isAutoplayActive := isAutoplayActive h;
     isPlayingAudio := v |}.

(** *** The message list *)

(** The updater [prev => [...prev, m]] every producer passes to
    [setMessages]. *)
Definition append (m : Message) (prev : list Message) : list Message :=
  prev ++ [m].

(** How many entries of the list carry the id [i]. *)
Definition copies (i : MsgId) (ms : list Message) : nat :=
  length (filter (λ m, id m = i) ms).

Definition greeting (t0 : Z) : Message :=
  {| id := IdNum 1;
     text := lit "Hello! I'm your AI support assistant. How can I help you today?";
     sender := ai;
     timestamp := Some t0;
     metadata := {[ "provider" := MStr (lit "system");
                    "greeting" := MBool true ]} |}.

(** [{ id: `user-${Date.now()}`, text, sender: 'user', timestamp: new Date() }] *)
Definition userMessage (txt : jsstring) (now : N) : Message :=
  {| id := IdStr (lit "user-" ++ decimal now);
     text := txt; sender := user;
     timestamp := Some (Z.of_N now); metadata := ∅ |}.

(** [x.id || `ai-${Date.now()}`]: an absent id, the number 0 and the empty
    string are falsy. *)
Definition idOr (i : MsgId) (now : N) : MsgId :=
  match i with
  | IdUndefined | IdNum 0 | IdStr [] => IdStr (lit "ai-" ++ decimal now)
  | _ => i
  end.

(** The assistant message built from a successful chat response. *)
Definition aiMessage (w : WireMessage) (now : N) : Message :=
  {| id := idOr (w_id w) now;
     text := w_content w; sender := ai;
     timestamp := w_timestamp w;
     metadata := default ∅ (w_metadata w) |}.

(** The assistant message built by the [ai-message] listener, which also
    defaults a falsy timestamp to [Date.now()]. *)
Definition aiMessageOfEvent (w : WireMessage) (now : N) : Message :=
  {| id := idOr (w_id w) now;
     text := w_content w; sender := ai;
     timestamp := Some match w_timestamp w with
                       | None | Some 0%Z => Z.of_N now
                       | Some t => t
                       end;
     metadata := default ∅ (w_metadata w) |}.

(** The assistant message built from the fallback of a failed call. *)
Definition fallbackMessage (w : WireMessage) : Message :=
  {| id := w_id w;
     text := w_content w; sender := ai;
     timestamp := w_timestamp w;
     metadata := <[ "error" := MBool true ]> (default ∅ (w_metadata w)) |}.

Definition errorMessage (now : N) : Message :=
  {| id := IdStr (lit "error-" ++ decimal now);
     text := lit "I'm sorry, I'm having trouble processing your request right now. Please try again in a moment.";
     sender := ai;
     timestamp := Some (Z.of_N now);
     metadata := {[ "error" := MBool true; "fallback" := MBool true ]} |}.

(** An entry of a loaded conversation. *)
Definition loadedMessage (w : WireMessage) : Message :=
  {| id := w_id w;
     text := w_content w;
     sender := if bool_decide (w_role w = lit "user") then user else ai;
     timestamp := w_timestamp w;
     metadata := default ∅ (w_metadata w) |}.

(** *** Autoplay: the text-to-speech chain *)

(** Where a call of [playAIMessageTTS] stands. *)
Inductive Stage :=
  | Fetching   (** awaiting the POST to /api/v1/tts and its blob *)
  | Sounding   (** [audio.play()] was called; awaiting the promise that
                   [onended], [onerror] or a rejected [play()] resolves *)
  | Returned   (** one of the three resolved the promise and the caller
                   went on; the audio and its other callbacks remain *)
  | Caught.    (** the [catch] block ran and the call returned; no audio
                   was made *)

(** A call of [playAIMessageTTS] awaited by [playNextMessage].  The caller
    is a closure of one render: [t_closure] holds the cells it captured. *)
Record Task := mkTask {
  t_closure : Hooks;
  t_message : Message;
  t_stage : Stage
}.

(** What the component asks of the outside world. *)
Inductive Effect :=
  | TtsRequest (m : Message)      (** POST /api/v1/tts with the cleaned text of [m] *)
  | AudioPlay (m : Message)       (** [audio.play()] on the audio synthesized for [m] *)
  | ChatPost (msg : jsstring)     (** [chatService.sendMessage(msg, ...)] *)
  | ScreenShareRequest.           (** [onScreenShareRequest()] *)

(** The component between two events.  [hooks] are the current values of
    the state cells, [view] the values the last render captured (what the
    handlers and effects of that render see), [played] the [Set] held by
    [playedMessageIdsRef], shared by all renders. *)
Record State := mkState {
  hooks : Hooks;
  view : Hooks;
  played : gset MsgId;
  tasks : list Task;
  log : list Effect
}.

Definition update (f : Hooks → Hooks) (s : State) : State :=
  {| hooks := f (hooks s); view := view s; played := played s;
     tasks := tasks s; log := log s |}.

Definition emit (e : Effect) (s : State) : State :=
  {| hooks := hooks s; view := view s; played := played s;
     tasks := tasks s; log := log s ++ [e] |}.

Definition markPlayed (i : MsgId) (s : State) : State :=
  {| hooks := hooks s; view := view s; played := {[ i ]} ∪ played s;
     tasks := tasks s; log := log s |}.

Definition spawn (t : Task) (s : State) : State :=
  {| hooks := hooks s; view := view s; played := played s;
     tasks := tasks s ++ [t]; log := log s |}.

Definition setStage (i : nat) (t : Task) (st : Stage) (s : State) : State :=
  {| hooks := hooks s; view := view s; played := played s;
     tasks := <[ i := {| t_closure := t_closure t; t_message := t_message t;
                         t_stage := st |} ]> (tasks s);
     log := log s |}.

(** [messages.filter(m => m.sender === 'ai')] *)
Definition aiMessages (ms : list Message) : list Message :=
  filter (λ m, sender m = ai) ms.

(** [m => !playedMessageIdsRef.current.has(m.id)] *)
Definition unplayed (pl : gset MsgId) (m : Message) : bool :=
  bool_decide (id m ∉ pl).

(** [aiMessages.find(m => !playedMessageIdsRef.current.has(m.id))] *)
Definition nextMessage (ms : list Message) (pl : gset MsgId) : option Message :=
  find (unplayed pl) (aiMessages ms).

(** [playAIMessageTTS(messageId, messageText)] up to its first [await]:
    the flag is raised and the synthesis request leaves. *)
Definition playAIMessageTTS (c : Hooks) (m : Message) (s : State) : State :=
  spawn {| t_closure := c; t_message := m; t_stage := Fetching |}
    (emit (TtsRequest m) (update (setIsPlayingAudio true) s)).

(** [playNextMessage()] of the render that captured [c], up to its [await]. *)
Definition playNextMessage (c : Hooks) (s : State) : State :=
  if isAutoplayActive c then
    match nextMessage (messages c) (played s) with
    | Some m => playAIMessageTTS c m s
    | None => update (setIsPlayingAudio false) s
    end
  else s.

(** The rest of [playNextMessage] after [await playAIMessageTTS(...)]:
    [if (isAutoplayActive) playNextMessage()], both names being those of
    the render that made the call. *)
Definition resume (c : Hooks) (s : State) : State :=
  if isAutoplayActive c then playNextMessage c s else s.

(** How the request and the download of the audio can end. *)
Inductive FetchOutcome :=
  | FetchRejected    (** network failure: [fetch] rejects *)
  | ResponseNotOk    (** [!res.ok]: the handler throws 'TTS failed' *)
  | BlobRejected     (** [res.blob()] rejects *)
  | BlobReady.       (** the audio arrived *)

(** How the playback can end. *)
Inductive AudioOutcome :=
  | AudioEnded       (** [audio.onended] *)
  | AudioErrored     (** [audio.onerror] *)
  | PlayRejected.    (** [audio.play()] rejects *)

(** The awaited request of task [i] settles.  On [BlobReady] the audio
    element is created and started; every other outcome lands in the
    [catch] block, which lowers the flag and returns to the caller. *)
Definition fetchSettled (i : nat) (o : FetchOutcome) (s : State) : State :=
  match tasks s !! i with
  | Some t =>
      match t_stage t, o with
      | Fetching, BlobReady =>
          emit (AudioPlay (t_message t)) (setStage i t Sounding s)
      | Fetching, _ =>
          resume (t_closure t)
            (update (setIsPlayingAudio false) (setStage i t Caught s))
      | _, _ => s
      end
  | None => s
  end.

(** A callback of the audio of task [i] fires.  The three callbacks are
    independent and have the same body: each adds the id to the set,
    lowers the flag and calls [resolve()].  The first call of [resolve()]
    lets the caller go on; a later one, when a second callback of the same
    audio fires, wakes nobody.  Before the audio is made, and after the
    [catch] block, there is no callback to fire. *)
Definition audioSettled (i : nat) (o : AudioOutcome) (s : State) : State :=
  match tasks s !! i with
  | Some t =>
      match t_stage t with
      | Sounding =>
          resume (t_closure t)
            (update (setIsPlayingAudio false)
               (markPlayed (id (t_message t)) (setStage i t Returned s)))
      | Returned =>
          update (setIsPlayingAudio false) (markPlayed (id (t_message t)) s)
      | Fetching | Caught => s
      end
  | None => s
  end.

(** [toggleAutoplay(enable)] *)
Definition toggleAutoplay (enable : bool) (s : State) : State :=
  let s' := update (setIsAutoplayActive enable) s in
  if enable then s' else update (setIsPlayingAudio false) s'.

(** The effect with dependencies
    [[isAutoplayActive, messages, isPlayingAudio]], for the render that
    captured [c]. *)
Definition autoplayEffect (c : Hooks) (s : State) : State :=
  if isAutoplayActive c && negb (isPlayingAudio c) then
    if existsb (unplayed (played s)) (aiMessages (messages c))
    then playNextMessage c s
    else s
  else s.

(** Did a dependency of the autoplay effect change between two renders. *)
Definition depsChanged (old new : Hooks) : bool :=
  negb (Bool.eqb (isAutoplayActive old) (isAutoplayActive new))
  || negb (messagesRef old =? messagesRef new)
  || negb (Bool.eqb (isPlayingAudio old) (isPlayingAudio new)).

(** React renders the component with the current cells and then runs the
    effects whose dependencies changed. *)
Definition render (s : State) : State :=
  let c := hooks s in
  let s' := {| hooks := c; view := c; played := played s;
               tasks := tasks s; log := log s |} in
  if depsChanged (view s) c then autoplayEffect c s' else s'.

(** *** Producers of messages *)

(** [sendMessage()] up to its [await]. *)
Definition sendMessage (now : N) (s : State) : State :=
  let c := view s in
  if truthy (trim (inputMessage c)) then
    emit (ChatPost (inputMessage c))
      (update (λ h, setError None (setIsLoading true (setInputMessage []
                 (setMessages (append (userMessage (inputMessage c) now)) h)))) s)
  else s.

Definition requestScreenShareIf (b : bool) (s : State) : State :=
  if b then emit ScreenShareRequest s else s.

(** What follows the awaited [chatService.sendMessage], in [sendMessage]
    and in the speech callback alike.  A successful response that carries
    no [message] object makes the handler throw, which its [catch] turns
    into an error message. *)
Definition chatSettled (r : SendResult) (now : N) (s : State) : State :=
  update (setIsLoading false)
    match r with
    | Success data =>
        match message data with
        | Some w =>
            requestScreenShareIf (should_request_screen_share data)
              (update (setMessages (append (aiMessage w now))) s)
        | None =>
            update (λ h, setError (Some (lit "Connection error. Please check your internet connection."))
                           (setMessages (append (errorMessage now)) h)) s
        end
    | Failure _ fb =>
        match message fb with
        | Some w =>
            requestScreenShareIf (should_request_screen_share fb)
              (update (λ h, setError (Some (lit "Unable to connect to AI service. Using offline mode."))
                              (setMessages (append (fallbackMessage w)) h)) s)
        | None =>
            update (λ h, setError (Some (lit "Connection error. Please check your internet connection."))
                           (setMessages (append (errorMessage now)) h)) s
        end
    end.

(** The listener of the window's [ai-message] event; [detail] is
    [e.detail]. *)
Definition aiMessageHandler (detail : option ChatData) (now : N) (s : State) : State :=
  match detail with
  | Some data =>
      match message data with
      | Some w => update (setMessages (append (aiMessageOfEvent w now))) s
      | None => s
      end
  | None => s
  end.

(** The [onTranscript] callback given to [SpeechInput]. *)
Definition onTranscript (txt : jsstring) (now : N) (s : State) : State :=
  if truthy txt && (10 <? length (trim txt)) then
    emit (ChatPost txt)
      (update (λ h, setError None (setIsLoading true
                 (setMessages (append (userMessage txt now)) h))) s)
  else update (setInputMessage txt) s.

(** The load button: [setMessages(mapped)]. *)
Definition loadConversation (ws : list WireMessage) (s : State) : State :=
  update (λ h, setError None (setMessages (λ _, map loadedMessage ws) h)) s.

(** *** The component as a transition system *)

Inductive Event :=
  | Render
  | ClickAutoplay
  | InputChanged (v : jsstring)
  | ClickSend (now : N)
  | Transcript (txt : jsstring) (now : N)
  | ChatSettled (r : SendResult) (now : N)
  | AiMessageEvent (detail : option ChatData) (now : N)
  | LoadConversation (ws : list WireMessage)
  | FetchSettled (i : nat) (o : FetchOutcome)
  | AudioSettled (i : nat) (o : AudioOutcome).

Definition step (s : State) (e : Event) : State :=
  match e with
  | Render => render s
  | ClickAutoplay => toggleAutoplay (negb (isAutoplayActive (view s))) s
  | InputChanged v => update (setInputMessage v) s
  | ClickSend now => sendMessage now s
  | Transcript txt now => onTranscript txt now s
  | ChatSettled r now => chatSettled r now s
  | AiMessageEvent d now => aiMessageHandler d now s
  | LoadConversation ws => loadConversation ws s
  | FetchSettled i o => fetchSettled i o s
  | AudioSettled i o => audioSettled i o s
  end.

Definition run (evs : list Event) (s : State) : State :=
  fold_left step evs s.

(** The cells of the first render. *)
Definition hooks0 (t0 : Z) : Hooks :=
  {| messages := [greeting t0]; messagesRef := 0;
     inputMessage := []; isLoading := false; error := None;
     isAutoplayActive := false; isPlayingAudio := false |}.

(** The component as first rendered, before any effect ran. *)
Definition unmounted (t0 : Z) : State :=
  {| hooks := hooks0 t0; view := hooks0 t0;
     played := ∅; tasks := []; log := [] |}.

(** The effect with no dependencies: [playedMessageIdsRef.current.add(1)]. *)
Definition markGreeting (s : State) : State := markPlayed (IdNum 1) s.

(** The component once mounted: the effects of the first render ran in the
    order the component declares them, the one that marks the greeting
    before the autoplay effect. *)
Definition init (t0 : Z) : State :=
  autoplayEffect (hooks0 t0) (markGreeting (unmounted t0)).

End ChatWindow.

(** ** components/ScreenShare.jsx *)

Module ScreenShare.

Import ChatService.

(** The [useState] cells of the component; a [MediaStream] is known by its
    identity. *)
Record Cells := mkCells {
  isSharing : bool;
  error : option jsstring;
  stream : option nat;
  isGeneratingToken : bool;
  agoraToken : option Z;
  channelName : option jsstring;
  isUploadingScreenshot : bool
}.

Definition setIsSharing (v : bool) (c : Cells) : Cells :=
  {| isSharing := v; error := error c; stream := stream c;
     isGeneratingToken := isGeneratingToken c; agoraToken := agoraToken c;
     channelName := channelName c;
     isUploadingScreenshot := isUploadingScreenshot c |}.

Definition setError (v : option jsstring) (c : Cells) : Cells :=
  {| isSharing := isSharing c; error := v; stream := stream c;
     isGeneratingToken := isGeneratingToken c; agoraToken := agoraToken c;
     channelName := channelName c;
     isUploadingScreenshot := isUploadingScreenshot c |}.

Definition setStream (v : option nat) (c : Cells) : Cells :=
  {| isSharing := isSharing c; error := error c; stream := v;
     isGeneratingToken := isGeneratingToken c; agoraToken := agoraToken c;
     channelName := channelName c;
     isUploadingScreenshot := isUploadingScreenshot c |}.

Definition setIsGeneratingToken (v : bool) (c : Cells) : Cells :=
  {| isSharing := isSharing c; error := error c; stream := stream c;
     isGeneratingToken := v; agoraToken := agoraToken c;
     channelName := channelName c;
     isUploadingScreenshot := isUploadingScreenshot c |}.

Definition setAgoraToken (v : option Z) (c : Cells) : Cells :=
  {| isSharing := isSharing c; error := error c; stream := stream c;
     isGeneratingToken := isGeneratingToken c; agoraToken := v;
     channelName := channelName c;
     isUploadingScreenshot := isUploadingScreenshot c |}.

Definition setChannelName (v : option jsstring) (c : Cells) : Cells :=
  {| isSharing := isSharing c; error := error c; stream := stream c;
     isGeneratingToken := isGeneratingToken c; agoraToken := agoraToken c;
     channelName := v;
     isUploadingScreenshot := isUploadingScreenshot c |}.

Definition setIsUploadingScreenshot (v : bool) (c : Cells) : Cells :=
  {| isSharing := isSharing c; error := error c; stream := stream c;
     isGeneratingToken := isGeneratingToken c; agoraToken := agoraToken c;
     channelName := channelName c;
     isUploadingScreenshot := v |}.

(** Where a call of [startScreenShare] stands.  The closure it runs in,
    whose [stopScreenShare] the stream's [ended] listener calls, saw the
    cells [st_closure]. *)
Inductive StartStage :=
  | AwaitToken
  | AwaitDisplay
  | Listening     (** the stream was granted and the [ended] listener is set *)
  | Failed.

Record StartTask := mkStart {
  st_closure : Cells;
  st_stage : StartStage
}.

(** Where a run of the screenshot button's handler stands. *)
Inductive UploadStage :=
  | Uploading                     (** awaiting the blob, the POST and its JSON *)
  | Notifying (msg : jsstring)    (** awaiting [chatService.sendMessage(msg, ...)] *)
  | Finished.

Global Instance UploadStage_eq_dec : EqDecision UploadStage.
Proof. solve_decision. Defined.

(** What the component asks of the outside world. *)
Inductive Output :=
  | TokenRequest (channel : jsstring)
  | DisplayMediaRequest
  | StopTracks (strm : nat)
  | OnStart
  | OnStop
  | Capture                           (** the frame is drawn and encoded *)
  | ChatSend (msg : jsstring)
  | Dispatch (detail : ChatData)      (** [window.dispatchEvent] of [ai-message] *)
  | Alert (msg : jsstring).

(** The component between two events, with the prop [isActive] that the
    page passes down ([isScreenShareRequested]). *)
Record State := mkState {
  cells : Cells;
  isActive : bool;
  starts : list StartTask;
  uploads : list UploadStage;
  out : list Output
}.

Definition update (f : Cells → Cells) (s : State) : State :=
  {| cells := f (cells s); isActive := isActive s; starts := starts s;
     uploads := uploads s; out := out s |}.

Definition emit (o : Output) (s : State) : State :=
  {| cells := cells s; isActive := isActive s; starts := starts s;
     uploads := uploads s; out := out s ++ [o] |}.

Definition setIsActive (v : bool) (s : State) : State :=
  {| cells := cells s; isActive := v; starts := starts s;
     uploads := uploads s; out := out s |}.

Definition setStart (i : nat) (t : StartTask) (st : StartStage) (s : State) : State :=
  {| cells := cells s; isActive := isActive s;
     starts := <[ i := {| st_closure := st_closure t; st_stage := st |} ]> (starts s);
     uploads := uploads s; out := out s |}.

Definition setUpload (i : nat) (st : UploadStage) (s : State) : State :=
  {| cells := cells s; isActive := isActive s; starts := starts s;
     uploads := <[ i := st ]> (uploads s); out := out s |}.

(** Which of the three panels the component shows. *)
Definition showsStartButton (s : State) : bool :=
  isActive s && negb (isSharing (cells s)).

Definition showsSharingPanel (s : State) : bool :=
  isActive s && isSharing (cells s).

(** [startScreenShare()] up to its first [await]; [channel] is the name
    [agoraService.generateChannelName] returned. *)
Definition startScreenShare (channel : jsstring) (s : State) : State :=
  {| cells := setChannelName (Some channel)
                (setIsGeneratingToken true (setError None (cells s)));
     isActive := isActive s;
     starts := starts s ++ [{| st_closure := cells s; st_stage := AwaitToken |}];
     uploads := uploads s;
     out := out s ++ [TokenRequest channel] |}.

(** The [catch] block of [startScreenShare]. *)
Definition startFailed (i : nat) (t : StartTask) (err : jsstring) (s : State) : State :=
  update (λ c, setIsGeneratingToken false
                 (setError (Some (lit "Failed to start screen sharing: " ++ err)) c))
    (setStart i t Failed s).

(** [agoraService.generateToken] resolved: [Some token] for a successful
    response, [None] for an unsuccessful one with message [err]. *)
Definition tokenSettled (i : nat) (token : option Z) (err : jsstring) (s : State) : State :=
  match starts s !! i with
  | Some t =>
      match st_stage t, token with
      | AwaitToken, Some tok =>
          emit DisplayMediaRequest
            (update (λ c, setIsGeneratingToken false (setAgoraToken (Some tok) c))
               (setStart i t AwaitDisplay s))
      | AwaitToken, None => startFailed i t err s
      | _, _ => s
      end
  | None => s
  end.

(** [getDisplayMedia] settled: [Some strm] when the user picked a screen,
    [None] when the call rejected with message [err]. *)
Definition displaySettled (i : nat) (granted : option nat) (err : jsstring) (s : State) : State :=
  match starts s !! i with
  | Some t =>
      match st_stage t, granted with
      | AwaitDisplay, Some strm =>
          emit OnStart
            (update (λ c, setIsSharing true (setStream (Some strm) c))
               (setStart i t Listening s))
      | AwaitDisplay, None => startFailed i t err s
      | _, _ => s
      end
  | None => s
  end.

(** [stopScreenShare()] of the render that captured [c]; [onStop()] makes
    the page withdraw the request. *)
Definition stopScreenShare (c : Cells) (s : State) : State :=
  let s1 := match stream c with
            | Some strm => update (setStream None) (emit (StopTracks strm) s)
            | None => s
            end in
  setIsActive false
    (emit OnStop
       (update (λ c, setChannelName None (setAgoraToken None (setIsSharing false c))) s1)).

(** The [ended] listener that the [i]-th call of [startScreenShare] set. *)
Definition trackEnded (i : nat) (s : State) : State :=
  match starts s !! i with
  | Some t =>
      match st_stage t with
      | Listening => stopScreenShare (st_closure t) s
      | _ => s
      end
  | None => s
  end.

(** The screenshot button's handler up to its first [await]: the flag is
    raised and the frame is drawn and handed to the encoder. *)
Definition sendScreenshot (s : State) : State :=
  {| cells := setIsUploadingScreenshot true (cells s);
     isActive := isActive s; starts := starts s;
     uploads := uploads s ++ [Uploading];
     out := out s ++ [Capture] |}.

(** What the encoding, the POST to /api/v1/screenshots and the parsing of
    its body amount to. *)
Inductive UploadOutcome :=
  | UploadThrew (err : jsstring)
  | UploadRefused (err : option jsstring)                   (** [data.success] falsy *)
  | UploadAccepted (ocr_text : option jsstring) (url : jsstring).

Section WithPage.

(** [window.location.origin] *)
Variable origin : jsstring.

(** The chat message that announces an accepted screenshot. *)
Definition screenshotMessage (ocr_text : option jsstring) (url : jsstring) : jsstring :=
  let ocrText := default [] ocr_text in
  if truthy ocrText
  then lit "User sent a screenshot. Extracted text:" ++ [10; 10]%N ++ ocrText
  else lit "User sent a screenshot: " ++ origin ++ url.

(** The handler's [finally] block. *)
Definition uploadDone (i : nat) (s : State) : State :=
  update (setIsUploadingScreenshot false) (setUpload i Finished s).

Definition uploadSettled (i : nat) (o : UploadOutcome) (s : State) : State :=
  match uploads s !! i with
  | Some Uploading =>
      match o with
      | UploadThrew err =>
          uploadDone i (emit (Alert (lit "Screenshot upload failed: " ++ err)) s)
      | UploadRefused err =>
          uploadDone i
            (emit (Alert (lit "Failed to upload screenshot: "
                          ++ default (lit "unknown") err)) s)
      | UploadAccepted ocr url =>
          let msg := screenshotMessage ocr url in
          emit (ChatSend msg) (setUpload i (Notifying msg) s)
      end
  | _ => s
  end.

(** The detail of the [ai-message] event: the response's data, or an
    offline stand-in that echoes the announcement. *)
Definition payload (msg : jsstring) (r : SendResult) (now : N) : ChatData :=
  match r with
  | Success data => data
  | Failure _ _ =>
      {| message := Some
           {| w_id := IdStr (lit "offline-" ++ decimal now);
              w_role := [];
              w_content := msg;
              w_timestamp := Some (Z.of_N now);
              w_metadata := Some {[ "fallback" := MBool true ]} |};
         conversation_id := None;
         should_request_screen_share := false;
         confidence_score := 0 |}
  end.

(** The awaited [chatService.sendMessage] of upload [i] resolved. *)
Definition notified (i : nat) (r : SendResult) (now : N) (s : State) : State :=
  match uploads s !! i with
  | Some (Notifying msg) =>
      uploadDone i
        (emit (Alert (lit "Screenshot sent to AI successfully."))
           (emit (Dispatch (payload msg r now)) s))
  | _ => s
  end.

Inductive Event :=
  | ScreenShareRequested                  (** the page sets [isActive] *)
  | ClickShare (channel : jsstring)
  | TokenSettled (i : nat) (token : option Z) (err : jsstring)
  | DisplaySettled (i : nat) (granted : option nat) (err : jsstring)
  | ClickStop
  | TrackEnded (i : nat)
  | ClickSendScreenshot
  | UploadSettled (i : nat) (o : UploadOutcome)
  | Notified (i : nat) (r : SendResult) (now : N).

(** A click reaches its handler only when the button is on the panel
    shown and not disabled. *)
Definition step (s : State) (e : Event) : State :=
  match e with
  | ScreenShareRequested => setIsActive true s
  | ClickShare channel =>
      if showsStartButton s && negb (isGeneratingToken (cells s))
      then startScreenShare channel s else s
  | TokenSettled i token err => tokenSettled i token err s
  | DisplaySettled i granted err => displaySettled i granted err s
  | ClickStop =>
      if showsSharingPanel s then stopScreenShare (cells s) s else s
  | TrackEnded i => trackEnded i s
  | ClickSendScreenshot =>
      if showsSharingPanel s && negb (isUploadingScreenshot (cells s))
      then sendScreenshot s else s
  | UploadSettled i o => uploadSettled i o s
  | Notified i r now => notified i r now s
  end.

Definition run (evs : list Event) (s : State) : State :=
  fold_left step evs s.

End WithPage.

Definition cells0 : Cells :=
  {| isSharing := false; error := None; stream := None;
     isGeneratingToken := false; agoraToken := None; channelName := None;
     isUploadingScreenshot := false |}.

Definition init : State :=
  {| cells := cells0; isActive := false; starts := []; uploads := []; out := [] |}.

(** The uploads that have not reached their [finally] block. *)
Definition inFlight (s : State) : nat :=
  length (filter (λ u, u ≠ Finished) (uploads s)).

End ScreenShare.

(** ** pages/Home.jsx: the two components side by side

    The page holds [isScreenShareRequested]: the chat window's
    [onScreenShareRequest] raises it, the screen share's [onStop] lowers it.
    An [ai-message] event that the screen share dispatches on the window
    runs the chat window's listener before [dispatchEvent] returns. *)

Module App.

Record State := mkState {
  share : ScreenShare.State;
  chat : ChatWindow.State
}.

Inductive Event :=
  | Share (e : ScreenShare.Event)
  | Chat (e : ChatWindow.Event).

(** What a step added to a log. *)
Definition fresh {A} (before after : list A) : list A :=
  drop (length before) after.

Definition isRequest (e : ChatWindow.Effect) : bool :=
  match e with ChatWindow.ScreenShareRequest => true | _ => false end.

(** The listener's reaction to one output of the screen share. *)
Definition deliver (now : N) (c : ChatWindow.State) (o : ScreenShare.Output)
    : ChatWindow.State :=
  match o with
  | ScreenShare.Dispatch d => ChatWindow.aiMessageHandler (Some d) now c
  | _ => c
  end.

Section WithPage.

Variable origin : jsstring.

Definition step (s : State) (e : Event) : State :=
  match e with
  | Share (ScreenShare.Notified i r now as e') =>
      let sh := ScreenShare.step origin (share s) e' in
      {| share := sh;
         chat := fold_left (deliver now)
                   (fresh (ScreenShare.out (share s)) (ScreenShare.out sh))
                   (chat s) |}
  | Share e' =>
      {| share := ScreenShare.step origin (share s) e'; chat := chat s |}
  | Chat e' =>
      let ch := ChatWindow.step (chat s) e' in
      {| share := if existsb isRequest
                       (fresh (ChatWindow.log (chat s)) (ChatWindow.log ch))
                  then ScreenShare.setIsActive true (share s)
                  else share s;
         chat := ch |}
  end.

Definition run (evs : list Event) (s : State) : State :=
  fold_left step evs s.

End WithPage.

Definition init (t0 : Z) : State :=
  {| share := ScreenShare.init; chat := ChatWindow.init t0 |}.

(** The chat window's message list. *)
Definition store (s : State) : list Message :=
  ChatWindow.messages (ChatWindow.hooks (chat s)).

(** The [ai-message] events dispatched so far. *)
Definition dispatched (s : State) : list ChatService.ChatData :=
  omap (λ o, match o with ScreenShare.Dispatch d => Some d | _ => None end)
       (ScreenShare.out (share s)).

End App.

(** ** The text sent for synthesis (ChatWindow.jsx, playAIMessageTTS)

    The message text goes through three replacements and a trim: every
    character of a class of markup and punctuation becomes a space, every
    run of newlines becomes a space, every run of whitespace becomes a
    space, and the ends are trimmed. *)

Module TtsText.

(** The character class of the first replacement, in the order the
    pattern lists it: star, hash, underscore, backquote, tilde, the square
    brackets, parentheses and braces, bar, backslash, slash, at, bang,
    dollar, percent, caret, ampersand, plus, equals, the angle brackets,
    question mark, semicolon, colon, the two quotes and the hyphen. *)
Definition specials : list N :=
  [42; 35; 95; 96; 126; 91; 93; 40; 41; 123; 125; 124; 92; 47; 64; 33; 36;
   37; 94; 38; 43; 61; 60; 62; 63; 59; 58; 39; 34; 45]%N.

Definition isSpecial (c : N) : bool := existsb (N.eqb c) specials.

Definition isNewline (c : N) : bool := (c =? 10)%N.

(** [s.replace(/[class]/g, ' ')]: every character of the class becomes a
    space. *)
Definition replaceClass (s : jsstring) : jsstring :=
  map (λ c, if isSpecial c then 32%N else c) s.

(** [s.replace(/P+/g, ' ')] for a one-character pattern [P]: every maximal
    run of characters matching [P] becomes one space.  [inRun] tells that
    the character before belonged to a run already replaced. *)
Fixpoint collapseFrom (P : N → bool) (inRun : bool) (s : jsstring) : jsstring :=
  match s with
  | [] => []
  | c :: s' =>
      if P c
      then if inRun then collapseFrom P true s'
           else 32%N :: collapseFrom P true s'
      else c :: collapseFrom P false s'
  end.

Definition replaceRuns (P : N → bool) (s : jsstring) : jsstring :=
  collapseFrom P false s.

(** The [cleanText] of [playAIMessageTTS]; the pattern [\s] matches the
    characters [trim] strips. *)
Definition cleanText (messageText : jsstring) : jsstring :=
  trim (replaceRuns isWhiteSpace (replaceRuns isNewline (replaceClass messageText))).

(** A character the cleaned text may hold: outside the class, and if
    whitespace then the plain space. *)
Definition plain (c : N) : Prop :=
  isSpecial c = false ∧ (isWhiteSpace c = true → c = 32%N).

(** Text in the form the synthesis endpoint receives: plain characters, no
    two spaces in a row, no space at either end. *)
Definition speakable (s : jsstring) : Prop :=
  Forall plain s
  ∧ (∀ i, s !! i = Some 32%N → s !! S i ≠ Some 32%N)
  ∧ head s ≠ Some 32%N
  ∧ last s ≠ Some 32%N.

(** No space follows a space; [after] tells that a space came just before. *)
Fixpoint sparse (after : bool) (s : jsstring) : Prop :=
  match s with
  | [] => True
  | c :: s' =>
      if (c =? 32)%N then after = false ∧ sparse true s' else sparse false s'
  end.

End TtsText.

(** ** services/agoraService.js *)

Module AgoraService.

Definition isDigit (c : N) : bool := ((48 <=? c) && (c <=? 57))%N.

Definition isLower (c : N) : bool := ((97 <=? c) && (c <=? 122))%N.

Definition isUpper (c : N) : bool := ((65 <=? c) && (c <=? 90))%N.

(** The class [[a-zA-Z0-9_-]]. *)
Definition isChannelChar (c : N) : bool :=
  isLower c || isUpper c || isDigit c || (c =? 95)%N || (c =? 45)%N.

(** [validateChannelName(channelName)]: the whole name is 1 to 64
    characters of the class. *)
Definition validateChannelName (channelName : jsstring) : bool :=
  (1 <=? length channelName) && (length channelName <=? 64)
  && forallb isChannelChar channelName.

(** [sessionId || `session`] *)
Definition sessionOf (sessionId : option jsstring) : jsstring :=
  match sessionId with
  | Some s => if truthy s then s else lit "session"
  | None => lit "session"
  end.

(** [generateChannelName(sessionId)]; [timestamp] is [Date.now()] and
    [random] is [Math.random().toString(36).substring(2, 8)]. *)
Definition generateChannelName (sessionId : option jsstring)
    (timestamp : N) (random : jsstring) : jsstring :=
  lit "support_" ++ sessionOf sessionId ++ lit "_" ++ decimal timestamp
  ++ lit "_" ++ random.

(** The name [startScreenShare] asks for: the session id is
    [`session_${Date.now()}`]. *)
Definition sessionChannel (now timestamp : N) (random : jsstring) : jsstring :=
  generateChannelName (Some (lit "session_" ++ decimal now)) timestamp random.

(** A digit of a number written in base 36. *)
Definition isBase36 (c : N) : bool := isDigit c || isLower c.

End AgoraService.

(** ** components/DocIngest.jsx and pages/DocUpload.jsx

    The two forms run the same [submit]; they differ in the limit on the
    content, in the wording of the success message, and in that the page
    returns to the chat two seconds after a success. *)

Module DocForm.

Record Variant := mkVariant {
  maxChars : N;
  successMsg : jsstring;
  returnsHome : bool
}.

Definition docIngest : Variant :=
  {| maxChars := 20000; successMsg := lit "Ingested successfully";
     returnsHome := false |}.

Definition docUpload : Variant :=
  {| maxChars := 100000; successMsg := lit "Document ingested successfully!";
     returnsHome := true |}.

(** The [useState] cells; [status] is [null] or [{ ok, msg }]. *)
Record Cells := mkCells {
  title : jsstring;
  content : jsstring;
  loading : bool;
  status : option (bool * jsstring)
}.

Definition setTitle (v : jsstring) (c : Cells) : Cells :=
  {| title := v; content := content c; loading := loading c; status := status c |}.

Definition setContent (v : jsstring) (c : Cells) : Cells :=
  {| title := title c; content := v; loading := loading c; status := status c |}.

Definition setLoading (v : bool) (c : Cells) : Cells :=
  {| title := title c; content := content c; loading := v; status := status c |}.

Definition setStatus (v : option (bool * jsstring)) (c : Cells) : Cells :=
  {| title := title c; content := content c; loading := loading c; status := v |}.

(** A POST to /api/v1/docs that [submit] awaits, or has seen settle. *)
Inductive Request :=
  | Awaiting
  | Settled.

Global Instance Request_eq_dec : EqDecision Request.
Proof. solve_decision. Defined.

Inductive Output :=
  | DocsPost (title : option jsstring) (content : jsstring)
      (** the body [{ title: title || undefined, content }] *)
  | NavigateHomeAfter (ms : N).
      (** [setTimeout(() => onNavigateHome(), ms)] *)

Record State := mkState {
  cells : Cells;
  requests : list Request;
  out : list Output
}.

Definition update (f : Cells → Cells) (s : State) : State :=
  {| cells := f (cells s); requests := requests s; out := out s |}.

Definition emit (o : Output) (s : State) : State :=
  {| cells := cells s; requests := requests s; out := out s ++ [o] |}.

(** The string fields of the JSON body the endpoint answers with; an
    absent field is [None]. *)
Record Body := mkBody {
  success : bool;
  error : option jsstring;
  detail : option jsstring;
  message : option jsstring
}.

(** [{}], what a body that does not parse is replaced by. *)
Definition emptyBody : Body :=
  {| success := false; error := None; detail := None; message := None |}.

(** How the awaited request ends: [fetch] rejects and [String(err)] is
    [err], or a response arrives with [res.ok] and, if it parses, a body. *)
Inductive Outcome :=
  | FetchThrew (err : jsstring)
  | Answered (ok : bool) (body : option Body).

(** [a || b] for a string field. *)
Definition orElse (a : option jsstring) (b : jsstring) : jsstring :=
  match a with
  | Some s => if truthy s then s else b
  | None => b
  end.

(** [j.error || j.detail || j.message || 'Ingest failed'] *)
Definition failureMsg (j : Body) : jsstring :=
  orElse (error j) (orElse (detail j) (orElse (message j) (lit "Ingest failed"))).

Section WithVariant.

Variable v : Variant.

Definition tooLong : jsstring :=
  lit "Content too long (max " ++ decimal (maxChars v) ++ lit " chars)".

(** [submit(e)] up to its [await]. *)
Definition submit (s : State) : State :=
  let c := cells s in
  if negb (truthy (trim (content c))) then
    update (setStatus (Some (false, lit "Content is required"))) s
  else if (maxChars v <? N.of_nat (length (content c)))%N then
    update (setStatus (Some (false, tooLong))) s
  else
    {| cells := setLoading true (setStatus None c);
       requests := requests s ++ [Awaiting];
       out := out s ++ [DocsPost (if truthy (title c) then Some (title c) else None)
                          (content c)] |}.

(** Did the request succeed: [res.ok && j.success]. *)
Definition succeeded (o : Outcome) : bool :=
  match o with
  | FetchThrew _ => false
  | Answered ok body => ok && success (default emptyBody body)
  end.

(** The rest of [submit] once request [i] settled, [finally] included. *)
Definition settled (i : nat) (o : Outcome) (s : State) : State :=
  match requests s !! i with
  | Some Awaiting =>
      let s1 := {| cells := cells s; requests := <[ i := Settled ]> (requests s);
                   out := out s |} in
      update (setLoading false)
        match o with
        | FetchThrew err => update (setStatus (Some (false, err))) s1
        | Answered ok body =>
            let j := default emptyBody body in
            if ok && success j then
              let s2 := update (λ c, setContent [] (setTitle []
                                       (setStatus (Some (true, successMsg v)) c))) s1 in
              if returnsHome v then emit (NavigateHomeAfter 2000) s2 else s2
            else update (setStatus (Some (false, failureMsg j))) s1
        end
  | _ => s
  end.

(** The Reset (Clear) button. *)
Definition reset (s : State) : State :=
  update (λ c, setStatus None (setContent [] (setTitle [] c))) s.

Inductive Event :=
  | TitleChanged (t : jsstring)
  | ContentChanged (t : jsstring)
  | Submit
  | RequestSettled (i : nat) (o : Outcome)
  | Reset.

(** The form is submitted through its submit button, which is disabled
    while [loading] is set. *)
Definition step (s : State) (e : Event) : State :=
  match e with
  | TitleChanged t => update (setTitle t) s
  | ContentChanged t => update (setContent t) s
  | Submit => if loading (cells s) then s else submit s
  | RequestSettled i o => settled i o s
  | Reset => reset s
  end.

Definition run (evs : list Event) (s : State) : State :=
  fold_left step evs s.

End WithVariant.

Definition init : State :=
  {| cells := {| title := []; content := []; loading := false; status := None |};
     requests := []; out := [] |}.

(** The requests that have not settled. *)
Definition awaited (s : State) : nat :=
  length (filter (λ r, r = Awaiting) (requests s)).

(** Awaited requests and the loading flag go together. *)
Definition inStep (s : State) : Prop :=
  awaited s = if loading (cells s) then 1 else 0.

End DocForm.

(** What the two forms may post. *)

Module DocRules.

Import DocForm.

(** A body the form may post under the limit of [v]: content that is not
    blank and not over the limit, and a title that is absent or not
    empty. *)
Definition postable (v : Variant) (o : Output) : Prop :=
  match o with
  | DocsPost t c =>
      trim c ≠ [] ∧ (N.of_nat (length c) ≤ maxChars v)%N ∧ t ≠ Some []
  | NavigateHomeAfter _ => True
  end.

End DocRules.

(** What the screen-sharing component asks for, counted. *)

Module ShareRules.

Import ScreenShare.

Definition count {A : Type} (p : A → bool) (l : list A) : nat :=
  length (List.filter p l).

Definition isDisplayRequest (o : Output) : bool :=
  match o with DisplayMediaRequest => true | _ => false end.

Definition isOnStart (o : Output) : bool :=
  match o with OnStart => true | _ => false end.

Definition isChatSend (o : Output) : bool :=
  match o with ChatSend _ => true | _ => false end.

Definition isDispatch (o : Output) : bool :=
  match o with Dispatch _ => true | _ => false end.

(** The events by which the outside world grants something. *)
Definition grantsToken (e : Event) : bool :=
  match e with TokenSettled _ (Some _) _ => true | _ => false end.

Definition grantsDisplay (e : Event) : bool :=
  match e with DisplaySettled _ (Some _) _ => true | _ => false end.

Definition acceptsUpload (e : Event) : bool :=
  match e with UploadSettled _ (UploadAccepted _ _) => true | _ => false end.

Definition isNotifying (u : UploadStage) : bool :=
  match u with Notifying _ => true | _ => false end.

(** Every announcement dispatched or still awaited was sent to the chat
    service. *)
Definition announced (s : State) : Prop :=
  count isDispatch (out s) + count isNotifying (uploads s)
  ≤ count isChatSend (out s).

End ShareRules.

(** * SpeechOutput.jsx: the play button of one message

    The component is given the message text as the prop [text]; its audio
    element is mounted with it, so [audioRef.current] is set whenever a
    handler runs. *)

Module SpeechOutput.

Record Cells := mkCells {
  isPlaying : bool;
  isLoading : bool
}.

Definition setIsPlaying (v : bool) (c : Cells) : Cells :=
  {| isPlaying := v; isLoading := isLoading c |}.

Definition setIsLoading (v : bool) (c : Cells) : Cells :=
  {| isPlaying := isPlaying c; isLoading := v |}.

(** A POST to /api/v1/tts that [playAudio] awaits, or has seen settle. *)
Inductive Request :=
  | Awaiting
  | Settled.

Global Instance Request_eq_dec : EqDecision Request.
Proof. solve_decision. Defined.

Inductive Output :=
  | TtsPost (text : jsstring)     (** the body [{ text }] *)
  | Play                          (** [audioRef.current.play()] *)
  | Pause                         (** [pause()] and [currentTime = 0] *)
  | Alert (msg : jsstring).

Record State := mkState {
  cells : Cells;
  requests : list Request;
  out : list Output
}.

Definition update (f : Cells → Cells) (s : State) : State :=
  {| cells := f (cells s); requests := requests s; out := out s |}.

Definition emit (o : Output) (s : State) : State :=
  {| cells := cells s; requests := requests s; out := out s ++ [o] |}.

Section WithText.

(** The prop [text]. *)
Variable text : jsstring.

(** [playAudio()] up to its [await]. *)
Definition playAudio (s : State) : State :=
  if negb (truthy text) || negb (truthy (trim text)) then s
  else {| cells := setIsLoading true (cells s);
          requests := requests s ++ [Awaiting];
          out := out s ++ [TtsPost text] |}.

(** The rest of [playAudio] once request [i] settled, [finally] included. *)
Definition settled (i : nat) (o : ChatWindow.FetchOutcome) (s : State) : State :=
  match requests s !! i with
  | Some Awaiting =>
      let s1 := {| cells := cells s; requests := <[ i := Settled ]> (requests s);
                   out := out s |} in
      update (setIsLoading false)
        match o with
        | ChatWindow.BlobReady => update (setIsPlaying true) (emit Play s1)
        | _ => emit (Alert (lit "Could not play audio. Check console for details.")) s1
        end
  | _ => s
  end.

(** [stopAudio()] *)
Definition stopAudio (s : State) : State :=
  update (setIsPlaying false) (emit Pause s).

Inductive Event :=
  | ClickPlay
  | ClickStop
  | Ended                                   (** the audio element's [onEnded] *)
  | RequestSettled (i : nat) (o : ChatWindow.FetchOutcome).

(** The play button is shown while nothing plays and is disabled while
    loading; the stop button is shown while something plays. *)
Definition step (s : State) (e : Event) : State :=
  match e with
  | ClickPlay =>
      if negb (isPlaying (cells s)) && negb (isLoading (cells s))
      then playAudio s else s
  | ClickStop => if isPlaying (cells s) then stopAudio s else s
  | Ended => update (setIsPlaying false) s
  | RequestSettled i o => settled i o s
  end.

Definition run (evs : list Event) (s : State) : State :=
  fold_left step evs s.

(** What the button may post: the prop as it is, and only when it is not
    blank. *)
Definition posted (o : Output) : Prop :=
  match o with
  | TtsPost t => t = text ∧ trim text ≠ []
  | _ => True
  end.

End WithText.

Definition init : State :=
  {| cells := {| isPlaying := false; isLoading := false |};
     requests := []; out := [] |}.

Definition awaited (s : State) : nat :=
  length (filter (λ r, r = Awaiting) (requests s)).

(** One request is awaited while the loading flag is set and none
    otherwise, and nothing plays while loading. *)
Definition inStep (s : State) : Prop :=
  awaited s = (if isLoading (cells s) then 1 else 0)
  ∧ (isLoading (cells s) = true → isPlaying (cells s) = false).

End SpeechOutput.

(** ** Sample data *)

Module Sample.

Import ChatService ChatWindow.

Definition wire (i txt : string) : WireMessage :=
  mkWire (IdStr (lit i)) (lit "assistant") (lit txt) (Some 5%Z) None.

Definition detail (i txt : string) : option ChatData :=
  Some (mkChatData (Some (wire i txt)) None false 0).

Definition A : Message := aiMessageOfEvent (wire "a" "first answer") 1.
Definition B : Message := aiMessageOfEvent (wire "b" "second answer") 3.
Definition U : Message := userMessage (lit "a question of mine") 2.

(** The mounted component after two answers arrived around a spoken
    question, rendered. *)
Definition three : State :=
  run [AiMessageEvent (detail "a" "first answer") 1;
       Transcript (lit "a question of mine") 2;
       AiMessageEvent (detail "b" "second answer") 3;
       Render] (init 0).

(** A chat response that asks for the user's screen. *)
Definition asksForScreen : SendResult :=
  Success (mkChatData (Some (wire "r" "please show me your screen"))
             None true 1).

(** The page after the assistant asked for the screen, the user shared it,
    pressed the screenshot button, stopped sharing, and the server then
    accepted the screenshot: the announcement to the chat service is still
    awaited. *)
Definition stoppedWhileUploading : list App.Event :=
  [App.Chat (ChatSettled asksForScreen 1); App.Chat Render;
   App.Share (ScreenShare.ClickShare (lit "support_session_2"));
   App.Share (ScreenShare.TokenSettled 0 (Some 7%Z) []);
   App.Share (ScreenShare.DisplaySettled 0 (Some 1) []);
   App.Share ScreenShare.ClickSendScreenshot;
   App.Share ScreenShare.ClickStop;
   App.Share (ScreenShare.UploadSettled 0
                (ScreenShare.UploadAccepted (Some (lit "Error 42")) (lit "/shots/1.png")))].

Definition page : jsstring := lit "http://localhost:5173".

(** The chat service's answer to the announcement of a screenshot. *)
Definition answer : SendResult :=
  Success (mkChatData (Some (wire "s" "I can see the error on your screen"))
             None false 1).

(** The mounted component with one answer, rendered. *)
Definition one : State :=
  run [AiMessageEvent (detail "a" "first answer") 1; Render] (init 0).

(** The mounted component with two answers, rendered. *)
Definition two : State :=
  run [AiMessageEvent (detail "a" "first answer") 1;
       AiMessageEvent (detail "b" "second answer") 3;
       Render] (init 0).

End Sample.

(** Reduce the setters and projections of the chat window's records. *)
Ltac cells :=
  unfold ChatWindow.playAIMessageTTS, ChatWindow.spawn, ChatWindow.emit,
         ChatWindow.update, ChatWindow.markPlayed,
         ChatWindow.setIsPlayingAudio, ChatWindow.setIsAutoplayActive,
         ChatWindow.setMessages, ChatWindow.setInputMessage,
         ChatWindow.setIsLoading, ChatWindow.setError,
         ChatWindow.depsChanged;
  cbn [ChatWindow.hooks ChatWindow.view ChatWindow.played ChatWindow.tasks
       ChatWindow.log ChatWindow.messages ChatWindow.messagesRef
       ChatWindow.inputMessage ChatWindow.isLoading ChatWindow.error
       ChatWindow.isAutoplayActive ChatWindow.isPlayingAudio
       ChatWindow.t_closure ChatWindow.t_message ChatWindow.t_stage
       negb andb orb Bool.eqb];
  rewrite ?Nat.eqb_refl;
  cbn [negb andb orb].

(** ** Properties the specification names *)

Module Spec.

Import ChatWindow.

(** The requests for synthesis in a log, oldest first. *)
Definition requested (l : list Effect) : list Message :=
  omap (λ e, match e with TtsRequest m => Some m | _ => None end) l.

(** The playbacks started in a log, oldest first. *)
Definition sounded (l : list Effect) : list Message :=
  omap (λ e, match e with AudioPlay m => Some m | _ => None end) l.

(** Post-stop discard: once the session is no longer sharing, the
    completion of an upload neither appends to the message list nor
    publishes an event. *)
Definition discards_after_stop (origin : jsstring) : Prop :=
  ∀ t0 evs i r now,
    let s := App.run origin evs (App.init t0) in
    ScreenShare.isSharing (ScreenShare.cells (App.share s)) = false →
    let s' := App.step origin s (App.Share (ScreenShare.Notified i r now)) in
    App.store s' = App.store s ∧ App.dispatched s' = App.dispatched s.

(** Auto-submission by length: a transcript longer than [n] code units is
    appended as a user message, any other becomes the draft. *)
Definition submits_by_length (n : nat) : Prop :=
  ∀ txt now s,
    let s' := onTranscript txt now s in
    if decide (n < length txt)
    then messages (hooks s') = messages (hooks s) ++ [userMessage txt now]
    else messages (hooks s') = messages (hooks s)
         ∧ inputMessage (hooks s') = txt.

(** Duplicate rejection: delivering a message whose id the list already
    holds leaves the list with one entry of that id. *)
Definition rejects_duplicates : Prop :=
  ∀ w cid b q now s,
    let m := aiMessageOfEvent w now in
    let d := ChatService.mkChatData (Some w) cid b q in
    copies (id m) (messages (hooks s)) = 1 →
    copies (id m) (messages (hooks (aiMessageHandler (Some d) now s))) = 1.

(** From [s] to [s'] the log was only extended, and every message newly
    sent for synthesis has an id that is not in the set of [s']. *)
Definition selects_unplayed (s s' : State) : Prop :=
  ∃ l, log s' = log s ++ l
       ∧ Forall (λ m, id m ∉ played s') (requested l).

(** A message the queue may narrate: sent by the assistant and not the
    greeting, whose id is the number 1. *)
Definition narratable (m : Message) : Prop :=
  sender m = ai ∧ id m ≠ IdNum 1.

Definition fine (e : Effect) : Prop :=
  match e with
  | TtsRequest m | AudioPlay m => narratable m
  | _ => True
  end.

(** What every reachable state of the chat window satisfies. *)
Definition safe (s : State) : Prop :=
  IdNum 1 ∈ played s
  ∧ Forall (λ t, narratable (t_message t)) (tasks s)
  ∧ Forall fine (log s).

(** Every call of [playAIMessageTTS] is awaited by a closure that saw
    autoplay switched on. *)
Definition armed (s : State) : Prop :=
  Forall (λ t, isAutoplayActive (t_closure t) = true) (tasks s).

Definition isCapture (o : ScreenShare.Output) : bool :=
  match o with ScreenShare.Capture => true | _ => false end.

Definition isScreenshotClick (e : ScreenShare.Event) : bool :=
  match e with ScreenShare.ClickSendScreenshot => true | _ => false end.

(** How many frames were captured, and how many clicks on the screenshot
    button a run contains. *)
Definition captures (l : list ScreenShare.Output) : nat :=
  length (List.filter isCapture l).

Definition clicks (evs : list ScreenShare.Event) : nat :=
  length (List.filter isScreenshotClick evs).

(** Does an upload count as pending. *)
Definition busy (u : ScreenShare.UploadStage) : nat :=
  if decide (u ≠ ScreenShare.Finished) then 1 else 0.

(** At most one upload is pending, and none while the flag is down. *)
Definition single (s : ScreenShare.State) : Prop :=
  ScreenShare.inFlight s ≤ 1
  ∧ (ScreenShare.isUploadingScreenshot (ScreenShare.cells s) = false
     → ScreenShare.inFlight s = 0).

End Spec.

(** ** Further properties of the chat window *)

Module Extra.

Import ChatWindow.

(** Autoplay is off in the cells and in the last render, no synthesis is
    awaited, and none was ever asked for or played. *)
Definition silent (s : State) : Prop :=
  isAutoplayActive (hooks s) = false
  ∧ isAutoplayActive (view s) = false
  ∧ tasks s = []
  ∧ Spec.requested (log s) = []
  ∧ Spec.sounded (log s) = [].

Definition isToggle (e : Event) : bool :=
  match e with ClickAutoplay => true | _ => false end.

End Extra.

(** The narration the specification asks for, and the schedules on which
    the chain is followed to its end. *)

Module Narration.

Import ChatWindow.

(** The queue in the specification's words: the messages in insertion
    order, one eligible when the assistant wrote it and its id is not
    played, and its id played from then on. *)
Fixpoint queue (pl : gset MsgId) (ms : list Message) : list Message :=
  match ms with
  | [] => []
  | m :: rest =>
      if bool_decide (sender m = ai) && bool_decide (id m ∉ pl)
      then m :: queue ({[ id m ]} ∪ pl) rest
      else queue pl rest
  end.

(** Each message of the queue is sent for synthesis and then played. *)
Definition narration (q : list Message) : list Effect :=
  flat_map (λ m, [TtsRequest m; AudioPlay m]) q.

Definition ids (q : list Message) : gset MsgId :=
  list_to_set (map id q).

(** How one message is narrated: React renders any number of times while
    the synthesis is awaited and while the audio sounds, and the playback
    ends in one of its three ways. *)
Record Turn := mkTurn {
  rendersWhileFetching : nat;
  rendersWhileSounding : nat;
  ending : AudioOutcome
}.

(** The calls of [playAIMessageTTS] from the [n]-th on succeed one after
    the other. *)
Fixpoint chain (n : nat) (turns : list Turn) : list Event :=
  match turns with
  | [] => []
  | t :: rest =>
      replicate (rendersWhileFetching t) Render
      ++ FetchSettled n BlobReady
         :: replicate (rendersWhileSounding t) Render
         ++ AudioSettled n (ending t)
            :: chain (S n) rest
  end.

(** Autoplay is switched on, React renders, and the chain runs. *)
Definition enabling (n : nat) (turns : list Turn) (after : nat) : list Event :=
  ClickAutoplay :: Render :: chain n turns ++ replicate after Render.

End Narration.

(** ** Facts about strings *)

Section StringFacts.

Lemma startsWith_spec (s w : jsstring) :
  startsWith s w = true ↔ ∃ post, s = w ++ post.
Proof.
  revert s. induction w as [|c w IH]; intros s.
  - destruct s; simpl; (split; [intros _; by eexists | done]).
  - destruct s as [|d s]; simpl.
    + split; [done | intros [post Hp]; discriminate].
    + rewrite andb_true_iff, N.eqb_eq, IH. split.
      * intros [-> [post ->]]. by exists post.
      * intros [post Hp]. injection Hp as -> ->. eauto.
Qed.

Lemma includes_spec (s w : jsstring) :
  includes s w = true ↔ substring_of w s.
Proof.
  unfold substring_of. induction s as [|d s IH]; cbn [includes].
  - rewrite orb_false_r, startsWith_spec. split.
    + intros [post Hp]. by exists [], post.
    + intros [pre [post Hp]]. symmetry in Hp.
      apply app_eq_nil in Hp as [-> Hp]. apply app_eq_nil in Hp as [-> ->].
      by exists [].
  - rewrite orb_true_iff, startsWith_spec, IH. split.
    + intros [[post Hp] | [pre [post Hp]]].
      * by exists [], post.
      * exists (d :: pre), post. by rewrite Hp.
    + intros [[|e pre] [post Hp]].
      * left. by exists post.
      * right. injection Hp as -> ->. by exists pre, post.
Qed.

Lemma trimStart_length (s : jsstring) : length (trimStart s) ≤ length s.
Proof.
  induction s as [|c s IH]; simpl; [done|].
  destruct (isWhiteSpace c); simpl; lia.
Qed.

Lemma trim_length (s : jsstring) : length (trim s) ≤ length s.
Proof.
  unfold trim, trimEnd. rewrite length_rev.
  etrans; [apply trimStart_length|]. rewrite length_rev.
  apply trimStart_length.
Qed.

End StringFacts.

Example trim_both_ends :
  trim (lit "  not working " ++ [9; 10]%N) = lit "not working".
Proof. reflexivity. Qed.

Example trim_no_break_space : trim ([160; 104; 105; 8232]%N) = lit "hi".
Proof. reflexivity. Qed.

Example includes_inside : includes (lit "i am stuck here") (lit "stuck") = true.
Proof. reflexivity. Qed.

Example includes_needs_a_run : includes (lit "s t u c k") (lit "stuck") = false.
Proof. reflexivity. Qed.

Example decimal_of_now : decimal 1700000000000 = lit "1700000000000".
Proof. reflexivity. Qed.

(** ** The chat service's fallback *)

(** C10.  When the POST to the chat endpoint fails, [sendMessage] returns
    an unsuccessful result that carries the fallback response; its
    [should_request_screen_share] flag is set exactly when the lowercased
    message contains one of the seven trigger substrings, and the metadata
    of its message marks it as fallback and offline. *)
Theorem sendMessage_fallback_flag
    (toLowerCase : jsstring → jsstring) (now : N) (pick : nat)
    (err msg : jsstring) :
  ∃ fb w meta,
    ChatService.sendMessage toLowerCase now pick (ChatService.PostRejected err) msg
      = ChatService.Failure err fb
    ∧ (ChatService.should_request_screen_share fb = true ↔
         ∃ word, word ∈ [lit "help"; lit "stuck"; lit "error"; lit "problem";
                         lit "issue"; lit "confused"; lit "not working"]
                 ∧ substring_of word (toLowerCase msg))
    ∧ ChatService.message fb = Some w
    ∧ ChatService.w_metadata w = Some meta
    ∧ meta !! "fallback" = Some (MBool true)
    ∧ meta !! "offline" = Some (MBool true).
Proof.
  eexists _, _, _. split; [reflexivity|]. split; [|done].
  simpl. unfold ChatService.needsScreenShare.
  rewrite existsb_exists. fold ChatService.triggerWords.
  split.
  - intros [word [Hin Hinc]]. exists word. split.
    + by apply list_elem_of_In.
    + by apply includes_spec.
  - intros [word [Hin Hsub]]. exists word. split.
    + by apply list_elem_of_In.
    + by apply includes_spec.
Qed.

Example fallback_asks_for_screen :
  ChatService.needsScreenShare asciiLower (lit "It is NOT WORKING at all") = true.
Proof. reflexivity. Qed.

Example fallback_keeps_quiet :
  ChatService.needsScreenShare asciiLower (lit "thanks, bye") = false.
Proof. reflexivity. Qed.

(** ** The message list of the chat window *)

Section MessageList.

Import ChatWindow.

Lemma copies_app (i : MsgId) (l1 l2 : list Message) :
  copies i (l1 ++ l2) = copies i l1 + copies i l2.
Proof. unfold copies. by rewrite filter_app, length_app. Qed.

Lemma copies_append (m : Message) (prev : list Message) :
  copies (id m) (append m prev) = S (copies (id m) prev).
Proof.
  unfold append. rewrite copies_app. unfold copies at 2.
  rewrite filter_cons_True by done. simpl. lia.
Qed.

Lemma copies_append_other (i : MsgId) (m : Message) (prev : list Message) :
  i ≠ id m → copies i (append m prev) = copies i prev.
Proof.
  intros Hne. unfold append. rewrite copies_app. unfold copies at 2.
  rewrite filter_cons_False by done. simpl. lia.
Qed.

End MessageList.

(** C7, the claim at a concrete input: the same [ai-message] detail
    delivered twice is appended twice, so the list ends with two entries of
    that id, where the claim promises a rejection and one entry. *)
Lemma duplicate_id_appended_twice : ¬ Spec.rejects_duplicates.
Proof.
  intros H.
  pose (w := ChatService.mkWire (IdStr (lit "m-1")) (lit "assistant")
               (lit "hello") (Some 5%Z) None).
  pose (d := ChatService.mkChatData (Some w) None false 0).
  specialize (H w None false 0%Q 0%N
    (ChatWindow.aiMessageHandler (Some d) 0 (ChatWindow.init 0))).
  vm_compute in H. specialize (H eq_refl). discriminate.
Qed.

(** C7, amended.  Appending never fails and never looks at the ids already
    present: the [ai-message] listener and the response branch of
    [sendMessage] put their message at the end of the list, and the number
    of entries that carry its id grows by one, also when the id was there
    before. *)
Theorem append_never_rejects
    (w : ChatService.WireMessage) (cid : option jsstring) (b : bool) (q : Q)
    (now : N) (s : ChatWindow.State) :
  let d := ChatService.mkChatData (Some w) cid b q in
  let m := ChatWindow.aiMessageOfEvent w now in
  let s1 := ChatWindow.aiMessageHandler (Some d) now s in
  let u := ChatWindow.aiMessage w now in
  let s2 := ChatWindow.chatSettled (ChatService.Success d) now s in
  ChatWindow.messages (ChatWindow.hooks s1)
    = ChatWindow.messages (ChatWindow.hooks s) ++ [m]
  ∧ ChatWindow.copies (id m) (ChatWindow.messages (ChatWindow.hooks s1))
    = S (ChatWindow.copies (id m) (ChatWindow.messages (ChatWindow.hooks s)))
  ∧ ChatWindow.messages (ChatWindow.hooks s2)
    = ChatWindow.messages (ChatWindow.hooks s) ++ [u]
  ∧ ChatWindow.copies (id u) (ChatWindow.messages (ChatWindow.hooks s2))
    = S (ChatWindow.copies (id u) (ChatWindow.messages (ChatWindow.hooks s))).
Proof.
  cbv zeta. split; [done|]. split.
  { apply (copies_append (ChatWindow.aiMessageOfEvent w now)). }
  destruct b; (split; [done|]);
    apply (copies_append (ChatWindow.aiMessage w now)).
Qed.

(** ** The speech callback *)

(** C9, the claim at a concrete input: a transcript of eleven code units,
    two letters followed by nine spaces, is longer than ten and still is
    not submitted; it becomes the draft. *)
Lemma padded_transcript_not_submitted : ¬ Spec.submits_by_length 10.
Proof.
  intros H.
  specialize (H (lit "hi         ") 0%N (ChatWindow.init 0)).
  vm_compute in H. discriminate.
Qed.

Example long_transcript_sent :
  ChatWindow.log
    (ChatWindow.onTranscript (lit "my printer is on fire") 4 (ChatWindow.init 0))
  = [ChatWindow.ChatPost (lit "my printer is on fire")].
Proof. reflexivity. Qed.

Example ten_letters_drafted :
  ChatWindow.inputMessage (ChatWindow.hooks
    (ChatWindow.onTranscript (lit "0123456789") 4 (ChatWindow.init 0)))
  = lit "0123456789".
Proof. reflexivity. Qed.

(** C9, amended.  A transcript is auto-submitted exactly when its length
    after trimming surrounding whitespace exceeds 10: then the untrimmed
    text is appended as a user message and sent to the chat service, and
    the draft is left alone; otherwise nothing is appended or sent and the
    text becomes the draft in the input field. *)
Theorem onTranscript_trimmed_threshold
    (txt : jsstring) (now : N) (s : ChatWindow.State) :
  let s' := ChatWindow.onTranscript txt now s in
  (10 < length (trim txt)
   ∧ ChatWindow.messages (ChatWindow.hooks s')
     = ChatWindow.messages (ChatWindow.hooks s) ++ [ChatWindow.userMessage txt now]
   ∧ ChatWindow.log s' = ChatWindow.log s ++ [ChatWindow.ChatPost txt]
   ∧ ChatWindow.inputMessage (ChatWindow.hooks s')
     = ChatWindow.inputMessage (ChatWindow.hooks s))
  ∨ (length (trim txt) ≤ 10
     ∧ ChatWindow.messages (ChatWindow.hooks s')
       = ChatWindow.messages (ChatWindow.hooks s)
     ∧ ChatWindow.log s' = ChatWindow.log s
     ∧ ChatWindow.inputMessage (ChatWindow.hooks s') = txt).
Proof.
  unfold ChatWindow.onTranscript.
  destruct (Nat.ltb_spec 10 (length (trim txt))) as [Hlt | Hle].
  - assert (truthy txt = true) as ->.
    { destruct txt; [vm_compute in Hlt; lia | done]. }
    left. simpl. done.
  - right. rewrite andb_false_r. simpl. done.
Qed.

(** ** The autoplay chain: what holds along every run *)

Section Autoplay.

Import ChatWindow.

(** The selection made by [playNextMessage]: the first entry of the list,
    in list order, that the assistant sent and whose id is not in the
    set. *)
Lemma nextMessage_spec (ms : list Message) (pl : gset MsgId) (m : Message) :
  nextMessage ms pl = Some m ↔
  ∃ l1 l2, ms = l1 ++ m :: l2
           ∧ sender m = ai ∧ (id m ∉ pl)
           ∧ Forall (λ x, sender x ≠ ai ∨ id x ∈ pl) l1.
Proof.
  unfold nextMessage, aiMessages. induction ms as [|x ms IH].
  - split; [done|]. intros (l1 & l2 & Heq & _). by destruct l1.
  - destruct (decide (sender x = ai)) as [Hai | Hnai].
    + rewrite filter_cons_True by done. simpl. unfold unplayed at 1.
      destruct (decide (id x ∉ pl)) as [Hun | Hpl].
      * rewrite bool_decide_eq_true_2 by done. split.
        -- intros [= ->]. by exists [], ms.
        -- intros ([|y l1] & l2 & Heq & _ & _ & Hall).
           ++ by injection Heq as ->.
           ++ injection Heq as -> _. apply Forall_cons_1 in Hall as [[?|?] _]; done.
      * rewrite bool_decide_eq_false_2 by done. rewrite IH. split.
        -- intros (l1 & l2 & -> & ? & ? & ?). exists (x :: l1), l2.
           repeat split; try done. constructor; [|done].
           right. by apply dec_stable.
        -- intros ([|y l1] & l2 & Heq & ? & ? & Hall).
           ++ injection Heq as -> _. done.
           ++ injection Heq as -> ->. apply Forall_cons_1 in Hall as [_ Hall].
              by exists l1, l2.
    + rewrite filter_cons_False by done. rewrite IH. split.
      * intros (l1 & l2 & -> & ? & ? & ?). exists (x :: l1), l2.
        repeat split; try done. constructor; [by left | done].
      * intros ([|y l1] & l2 & Heq & ? & ? & Hall).
        -- injection Heq as -> _. done.
        -- injection Heq as -> ->. apply Forall_cons_1 in Hall as [_ Hall].
           by exists l1, l2.
Qed.

Lemma nextMessage_None (ms : list Message) (pl : gset MsgId) :
  nextMessage ms pl = None ↔ Forall (λ x, sender x ≠ ai ∨ id x ∈ pl) ms.
Proof.
  unfold nextMessage, aiMessages. induction ms as [|x ms IH]; [done|].
  destruct (decide (sender x = ai)) as [Hai | Hnai].
  - rewrite filter_cons_True by done. simpl. unfold unplayed at 1.
    destruct (decide (id x ∉ pl)) as [Hun | Hpl].
    + rewrite bool_decide_eq_true_2 by done. split; [done|].
      intros [[?|?] _]%Forall_cons_1; done.
    + rewrite bool_decide_eq_false_2 by done. rewrite IH. split.
      * intros ?. constructor; [|done]. right. by apply dec_stable.
      * by intros [_ ?]%Forall_cons_1.
  - rewrite filter_cons_False by done. rewrite IH. split.
    + intros ?. constructor; [by left | done].
    + by intros [_ ?]%Forall_cons_1.
Qed.

(** A message id once in the set is never selected. *)
Lemma played_never_selected (ms : list Message) (pl : gset MsgId) (m : Message) :
  id m ∈ pl → nextMessage ms pl ≠ Some m.
Proof.
  intros Hin Hsel. apply nextMessage_spec in Hsel as (_ & _ & _ & _ & Hn & _).
  done.
Qed.

(** The set only grows, whatever happens. *)
Lemma playNextMessage_played (c : Hooks) (s : State) :
  played (playNextMessage c s) = played s.
Proof.
  unfold playNextMessage. destruct (isAutoplayActive c); [|done].
  by destruct (nextMessage _ _).
Qed.

Lemma resume_played (c : Hooks) (s : State) :
  played (resume c s) = played s.
Proof.
  unfold resume. destruct (isAutoplayActive c); [|done].
  apply playNextMessage_played.
Qed.

Lemma step_played_mono (s : State) (e : Event) :
  played s ⊆ played (step s e).
Proof.
  destruct e; simpl; try done.
  - unfold render. destruct (depsChanged _ _); [|done].
    unfold autoplayEffect. destruct (_ && _); [|done].
    destruct (existsb _ _); [|done]. by rewrite playNextMessage_played.
  - unfold toggleAutoplay. by destruct (negb _).
  - unfold sendMessage. by destruct (truthy _).
  - unfold onTranscript. by destruct (_ && _).
  - unfold chatSettled, requestScreenShareIf.
    destruct r as [d | ? d]; destruct (ChatService.message d); simpl; try done;
      by destruct (ChatService.should_request_screen_share d).
  - unfold aiMessageHandler. destruct detail as [d|]; [|done].
    by destruct (ChatService.message d).
  - unfold fetchSettled. destruct (tasks s !! i) as [t|]; [|done].
    destruct (t_stage t), o; try done; by rewrite resume_played.
  - unfold audioSettled. destruct (tasks s !! i) as [t|]; [|done].
    destruct (t_stage t); try done.
    + rewrite resume_played. simpl. set_solver.
    + simpl. set_solver.
Qed.

Lemma run_played_mono (evs : list Event) (s : State) :
  played s ⊆ played (run evs s).
Proof.
  revert s. induction evs as [|e evs IH]; intros s; simpl; [done|].
  etrans; [apply step_played_mono | apply IH].
Qed.

(** A request that does not come back with audio leaves the set as it
    was. *)
Lemma fetchSettled_played (i : nat) (o : FetchOutcome) (s : State) :
  played (fetchSettled i o s) = played s.
Proof.
  unfold fetchSettled. destruct (tasks s !! i) as [t|]; [|done].
  destruct (t_stage t), o; try done; by rewrite resume_played.
Qed.

End Autoplay.

Section Greeting.

Import ChatWindow Spec.

Lemma safe_update (f : Hooks → Hooks) (s : State) : safe s → safe (update f s).
Proof. done. Qed.

Lemma safe_emit (e : Effect) (s : State) : fine e → safe s → safe (emit e s).
Proof.
  intros He (Hp & Ht & Hl). repeat split; try done.
  simpl. apply Forall_app. split; [done|]. by constructor.
Qed.

Lemma safe_setStage (i : nat) (t : Task) (st : Stage) (s : State) :
  tasks s !! i = Some t → safe s → safe (setStage i t st s).
Proof.
  intros Hi (Hp & Ht & Hl). repeat split; try done.
  simpl. apply Forall_insert; [done|]. simpl.
  by eapply (Forall_lookup_1 _ _ _ _ Ht).
Qed.

Lemma safe_markPlayed (i : MsgId) (s : State) : safe s → safe (markPlayed i s).
Proof.
  intros (Hp & Ht & Hl). repeat split; try done. simpl. set_solver.
Qed.

Lemma safe_playNextMessage (c : Hooks) (s : State) :
  safe s → safe (playNextMessage c s).
Proof.
  intros Hs. unfold playNextMessage.
  destruct (isAutoplayActive c); [|done].
  destruct (nextMessage _ _) as [m|] eqn:Hsel; [|by apply safe_update].
  apply nextMessage_spec in Hsel as (_ & _ & _ & Hai & Hun & _).
  assert (narratable m) as Hm.
  { split; [done|]. intros Heq. apply Hun. rewrite Heq. apply Hs. }
  destruct Hs as (Hp & Ht & Hl). repeat split; try done; simpl.
  - apply Forall_app. split; [done|]. by constructor.
  - apply Forall_app. split; [done|]. by constructor.
Qed.

Lemma safe_resume (c : Hooks) (s : State) : safe s → safe (resume c s).
Proof.
  intros Hs. unfold resume. destruct (isAutoplayActive c); [|done].
  by apply safe_playNextMessage.
Qed.

Lemma safe_step (s : State) (e : Event) : safe s → safe (step s e).
Proof.
  intros Hs. destruct e; simpl.
  - unfold render. destruct (depsChanged _ _); [|done].
    unfold autoplayEffect. destruct (_ && _); [|done].
    destruct (existsb _ _); [|done]. by apply safe_playNextMessage.
  - unfold toggleAutoplay. by destruct (negb _).
  - done.
  - unfold sendMessage. destruct (truthy _); [|done].
    by apply safe_emit.
  - unfold onTranscript. destruct (_ && _); [|done]. by apply safe_emit.
  - unfold chatSettled, requestScreenShareIf. apply safe_update.
    destruct r as [d | ? d]; destruct (ChatService.message d); try done;
      destruct (ChatService.should_request_screen_share d); try done;
      by apply safe_emit.
  - unfold aiMessageHandler. destruct detail as [d|]; [|done].
    by destruct (ChatService.message d).
  - done.
  - unfold fetchSettled. destruct (tasks s !! i) as [t|] eqn:Hi; [|done].
    pose proof (safe_setStage i t Caught s Hi Hs) as Hret.
    pose proof (safe_setStage i t Sounding s Hi Hs) as Hsnd.
    destruct (t_stage t), o; try done;
      try (apply safe_resume; by apply safe_update).
    apply safe_emit; [|done]. simpl.
    destruct Hs as (_ & Ht & _). by eapply (Forall_lookup_1 _ _ _ _ Ht).
  - unfold audioSettled. destruct (tasks s !! i) as [t|] eqn:Hi; [|done].
    destruct (t_stage t); try done.
    + apply safe_resume, safe_update, safe_markPlayed. by apply safe_setStage.
    + by apply safe_update, safe_markPlayed.
Qed.

Lemma safe_run (evs : list Event) (s : State) : safe s → safe (run evs s).
Proof.
  revert s. induction evs as [|e evs IH]; intros s Hs; simpl; [done|].
  by apply IH, safe_step.
Qed.

Lemma safe_init (t0 : Z) : safe (init t0).
Proof. split; [simpl; set_solver|]. split; simpl; constructor. Qed.

Lemma fine_requested (l : list Effect) :
  Forall fine l → Forall narratable (requested l).
Proof.
  induction 1 as [|e l He _ IH]; [done|].
  destruct e; simpl; try done. by constructor.
Qed.

Lemma fine_sounded (l : list Effect) :
  Forall fine l → Forall narratable (sounded l).
Proof.
  induction 1 as [|e l He _ IH]; [done|].
  destruct e; simpl; try done. by constructor.
Qed.

End Greeting.

(** C8.  The greeting's id is in the set of played ids from the moment the
    component is mounted, and along every run of the component (toggles,
    arrivals of any kind, loads, settled requests and playbacks, renders)
    every message sent for synthesis or played back was sent by the
    assistant and is not the greeting. *)
Theorem greeting_never_narrated (t0 : Z) (evs : list ChatWindow.Event) :
  id (ChatWindow.greeting t0) ∈ ChatWindow.played (ChatWindow.init t0)
  ∧ Forall (λ m, sender m = ai ∧ id m ≠ id (ChatWindow.greeting t0))
      (Spec.requested (ChatWindow.log (ChatWindow.run evs (ChatWindow.init t0))))
  ∧ Forall (λ m, sender m = ai ∧ id m ≠ id (ChatWindow.greeting t0))
      (Spec.sounded (ChatWindow.log (ChatWindow.run evs (ChatWindow.init t0)))).
Proof.
  pose proof (safe_run evs _ (safe_init t0)) as (_ & _ & Hl).
  split; [simpl; set_solver|]. split.
  - by apply fine_requested.
  - by apply fine_sounded.
Qed.

(** ** Selection never takes a played id *)

Section Selection.

Import ChatWindow Spec.

Lemma selects_nothing (s s' : State) :
  log s' = log s → selects_unplayed s s'.
Proof. intros Hl. exists []. rewrite app_nil_r. split; [done | constructor]. Qed.

Lemma selects_other (e : Effect) (s s' : State) :
  log s' = log s ++ [e] → requested [e] = [] → selects_unplayed s s'.
Proof. intros Hl He. exists [e]. split; [done|]. rewrite He. constructor. Qed.

Lemma selects_playNextMessage (c : Hooks) (s s0 : State) :
  log s0 = log s → selects_unplayed s (playNextMessage c s0).
Proof.
  intros Hl. unfold playNextMessage.
  destruct (isAutoplayActive c); [|by apply selects_nothing].
  destruct (nextMessage _ _) as [m|] eqn:Hsel; [|by apply selects_nothing].
  apply nextMessage_spec in Hsel as (_ & _ & _ & _ & Hun & _).
  exists [TtsRequest m]. simpl. rewrite Hl. split; [done|]. by constructor.
Qed.

Lemma selects_resume (c : Hooks) (s s0 : State) :
  log s0 = log s → selects_unplayed s (resume c s0).
Proof.
  intros Hl. unfold resume. destruct (isAutoplayActive c).
  - by apply selects_playNextMessage.
  - by apply selects_nothing.
Qed.

(** Whatever the event, a message sent for synthesis during it has an id
    outside the set as the event leaves it: an id once added is never
    selected again. *)
Lemma selects_step (s : State) (e : Event) : selects_unplayed s (step s e).
Proof.
  destruct e; simpl.
  - unfold render. destruct (depsChanged _ _); [|by apply selects_nothing].
    unfold autoplayEffect. destruct (_ && _); [|by apply selects_nothing].
    destruct (existsb _ _); [|by apply selects_nothing].
    by apply selects_playNextMessage.
  - apply selects_nothing. unfold toggleAutoplay. by destruct (negb _).
  - by apply selects_nothing.
  - unfold sendMessage. destruct (truthy _); [|by apply selects_nothing].
    by eapply selects_other.
  - unfold onTranscript. destruct (_ && _); [|by apply selects_nothing].
    by eapply selects_other.
  - unfold chatSettled, requestScreenShareIf.
    destruct r as [d | ? d]; destruct (ChatService.message d);
      try (by apply selects_nothing);
      destruct (ChatService.should_request_screen_share d);
      try (by apply selects_nothing); by eapply selects_other.
  - apply selects_nothing. unfold aiMessageHandler.
    destruct detail as [d|]; [|done]. by destruct (ChatService.message d).
  - by apply selects_nothing.
  - unfold fetchSettled. destruct (tasks s !! i) as [t|]; [|by apply selects_nothing].
    destruct (t_stage t), o; try (by apply selects_nothing);
      try (by apply selects_resume).
    by eapply selects_other.
  - unfold audioSettled. destruct (tasks s !! i) as [t|]; [|by apply selects_nothing].
    destruct (t_stage t); try (by apply selects_nothing).
    by apply selects_resume.
Qed.

End Selection.

(** ** The flag tested after the await *)

Section Guard.

Import ChatWindow Spec.

Lemma armed_playNextMessage (c : Hooks) (s : State) :
  armed s → armed (playNextMessage c s).
Proof.
  intros Hs. unfold playNextMessage.
  destruct (isAutoplayActive c) eqn:Hc; [|done].
  destruct (nextMessage _ _) as [m|]; [|done].
  unfold armed. simpl. apply Forall_app. split; [done|]. by constructor.
Qed.

Lemma armed_resume (c : Hooks) (s : State) : armed s → armed (resume c s).
Proof.
  intros Hs. unfold resume. destruct (isAutoplayActive c); [|done].
  by apply armed_playNextMessage.
Qed.

Lemma armed_setStage (i : nat) (t : Task) (st : Stage) (s : State) :
  tasks s !! i = Some t → armed s → armed (setStage i t st s).
Proof.
  intros Hi Hs. unfold armed. simpl. apply Forall_insert; [done|]. simpl.
  by eapply (Forall_lookup_1 _ _ _ _ Hs).
Qed.

Lemma armed_step (s : State) (e : Event) : armed s → armed (step s e).
Proof.
  intros Hs. destruct e; simpl.
  - unfold render. destruct (depsChanged _ _); [|done].
    unfold autoplayEffect. destruct (_ && _); [|done].
    destruct (existsb _ _); [|done]. by apply armed_playNextMessage.
  - unfold toggleAutoplay. by destruct (negb _).
  - done.
  - unfold sendMessage. by destruct (truthy _).
  - unfold onTranscript. by destruct (_ && _).
  - unfold chatSettled, requestScreenShareIf.
    destruct r as [d | ? d]; destruct (ChatService.message d); try done;
      by destruct (ChatService.should_request_screen_share d).
  - unfold aiMessageHandler. destruct detail as [d|]; [|done].
    by destruct (ChatService.message d).
  - done.
  - unfold fetchSettled. destruct (tasks s !! i) as [t|] eqn:Hi; [|done].
    pose proof (armed_setStage i t Caught s Hi Hs) as Hret.
    pose proof (armed_setStage i t Sounding s Hi Hs) as Hsnd.
    destruct (t_stage t), o; try done; by apply armed_resume.
  - unfold audioSettled. destruct (tasks s !! i) as [t|] eqn:Hi; [|done].
    destruct (t_stage t); try done.
    apply armed_resume. by apply (armed_setStage i t Returned s Hi).
Qed.

(** Along every run, the closure that awaits a synthesis captured
    [isAutoplayActive = true]: the test it makes after the await always
    passes, whatever the flag is by then. *)
Lemma guard_after_await_always_passes
    (t0 : Z) (evs : list Event) (i : nat) (t : Task) :
  tasks (run evs (init t0)) !! i = Some t →
  resume (t_closure t) = playNextMessage (t_closure t)
  ∧ isAutoplayActive (t_closure t) = true.
Proof.
  assert (∀ s, armed s → armed (run evs s)) as Hrun.
  { induction evs as [|e evs IH]; intros s Hs; simpl; [done|].
    by apply IH, armed_step. }
  assert (armed (run evs (init t0))) as Ha.
  { apply Hrun. unfold armed. simpl. constructor. }
  intros Hi. pose proof (Forall_lookup_1 _ _ _ _ Ha Hi) as Ht. simpl in Ht.
  split; [|done]. unfold resume. by rewrite Ht.
Qed.

End Guard.

(** ** The order of narration *)

Section Fifo.

Import ChatWindow Spec.

Lemma hasUnplayed_next (ms : list Message) (pl : gset MsgId) (m : Message) :
  nextMessage ms pl = Some m →
  existsb (unplayed pl) (aiMessages ms) = true.
Proof.
  unfold nextMessage. generalize (aiMessages ms). intros l.
  induction l as [|x l IH]; simpl; [done|].
  destruct (unplayed pl x); [done|]. apply IH.
Qed.

Variables (pre : list Message) (M1 M2 M3 : Message) (pl : gset MsgId).
Hypothesis pre_done : Forall (λ m, sender m = user ∨ id m ∈ pl) pre.
Hypothesis M1_ai : sender M1 = ai.
Hypothesis M2_user : sender M2 = user.
Hypothesis M3_ai : sender M3 = ai.
Hypothesis M1_new : id M1 ∉ pl.
Hypothesis M3_new : id M3 ∉ pl.
Hypothesis M1_M3 : id M1 ≠ id M3.

Lemma pre_skipped (pl' : gset MsgId) :
  pl ⊆ pl' → Forall (λ x, sender x ≠ ai ∨ id x ∈ pl') pre.
Proof.
  intros Hsub. eapply Forall_impl; [apply pre_done|].
  intros x [Hu | Hp]; [left; congruence | right; set_solver].
Qed.

Lemma first_is_M1 : nextMessage (pre ++ [M1; M2; M3]) pl = Some M1.
Proof.
  apply nextMessage_spec. exists pre, [M2; M3].
  repeat split; try done. by apply pre_skipped.
Qed.

Lemma second_is_M3 :
  nextMessage (pre ++ [M1; M2; M3]) ({[ id M1 ]} ∪ pl) = Some M3.
Proof.
  apply nextMessage_spec. exists (pre ++ [M1; M2]), [].
  split; [by rewrite <- app_assoc|]. split; [done|].
  split; [intros [?%elem_of_singleton | ?]%elem_of_union; by auto|].
  apply Forall_app. split; [apply pre_skipped; set_solver|].
  constructor; [right; set_solver|].
  constructor; [left; congruence | constructor].
Qed.

Lemma then_none :
  nextMessage (pre ++ [M1; M2; M3]) ({[ id M3 ]} ∪ ({[ id M1 ]} ∪ pl)) = None.
Proof.
  apply nextMessage_None. apply Forall_app.
  split; [apply pre_skipped; set_solver|].
  constructor; [right; set_solver|].
  constructor; [left; congruence|].
  constructor; [right; set_solver | constructor].
Qed.

End Fifo.

(** ** One call of playAIMessageTTS, settled *)

Lemma run_cons (e : ChatWindow.Event) (evs : list ChatWindow.Event)
    (s : ChatWindow.State) :
  ChatWindow.run (e :: evs) s = ChatWindow.run evs (ChatWindow.step s e).
Proof. reflexivity. Qed.

(** Take the next event of a run. *)
Ltac next := rewrite run_cons; cbn [ChatWindow.step].

Section Settling.

Import ChatWindow.

Variables (h v c : Hooks) (pl : gset MsgId) (ts : list Task)
          (lg : list Effect) (m : Message) (i : nat).
Hypothesis last : i = length ts.

Lemma lookup_last (t : Task) : (ts ++ [t]) !! i = Some t.
Proof. rewrite last. apply list_lookup_middle. done. Qed.

Lemma insert_last (t t' : Task) : <[ i := t' ]> (ts ++ [t]) = ts ++ [t'].
Proof.
  rewrite last. rewrite insert_app_r_alt by done.
  by rewrite Nat.sub_diag.
Qed.

(** The audio arrived: playback starts. *)
Lemma fetchSettled_ready :
  fetchSettled i BlobReady
    (mkState h v pl (ts ++ [mkTask c m Fetching]) lg)
  = mkState h v pl (ts ++ [mkTask c m Sounding]) (lg ++ [AudioPlay m]).
Proof.
  unfold fetchSettled. cbn [tasks]. rewrite lookup_last.
  cbn [t_stage t_message]. unfold emit, setStage. cbn.
  by rewrite insert_last.
Qed.

(** The request failed: the flag is lowered, the set is untouched, and
    the caller goes on. *)
Lemma fetchSettled_failed (o : FetchOutcome) :
  o ≠ BlobReady →
  fetchSettled i o
    (mkState h v pl (ts ++ [mkTask c m Fetching]) lg)
  = resume c
      (mkState (setIsPlayingAudio false h) v pl
         (ts ++ [mkTask c m Caught]) lg).
Proof.
  intros Ho. unfold fetchSettled. cbn [tasks]. rewrite lookup_last.
  cbn [t_stage t_closure].
  destruct o; try done; unfold update, setStage; cbn;
    by rewrite insert_last.
Qed.

(** The playback ended, one way or another: the id joins the set, the
    flag is lowered, and the caller goes on. *)
Lemma audioSettled_done (o : AudioOutcome) :
  audioSettled i o
    (mkState h v pl (ts ++ [mkTask c m Sounding]) lg)
  = resume c
      (mkState (setIsPlayingAudio false h) v ({[ id m ]} ∪ pl)
         (ts ++ [mkTask c m Returned]) lg).
Proof.
  unfold audioSettled. cbn [tasks]. rewrite lookup_last.
  cbn [t_stage t_closure t_message].
  unfold update, markPlayed, setStage. cbn. by rewrite insert_last.
Qed.

End Settling.

Section FifoRun.

Import ChatWindow.

Variables (pre : list Message) (M1 M2 M3 : Message) (pl : gset MsgId).
Hypothesis pre_done : Forall (λ m, sender m = user ∨ id m ∈ pl) pre.
Hypothesis M1_ai : sender M1 = ai.
Hypothesis M2_user : sender M2 = user.
Hypothesis M3_ai : sender M3 = ai.
Hypothesis M1_new : id M1 ∉ pl.
Hypothesis M3_new : id M3 ∉ pl.
Hypothesis M1_M3 : id M1 ≠ id M3.

Variables (ref : nat) (inp : jsstring) (ld : bool) (er : option jsstring)
          (ts : list Task) (lg : list Effect).

Local Abbreviation withFlags :=
  (mkHooks (pre ++ [M1; M2; M3]) ref inp ld er) (only parsing).

(** Autoplay is switched on in a rendered, idle component; both
    syntheses succeed and both playbacks end; React renders after every
    event. *)
Lemma fifo_run (o1 o3 : AudioOutcome) :
  run [ClickAutoplay; Render; Render;
       FetchSettled (length ts) BlobReady; Render;
       AudioSettled (length ts) o1; Render;
       FetchSettled (S (length ts)) BlobReady; Render;
       AudioSettled (S (length ts)) o3; Render]
      (mkState (withFlags false false) (withFlags false false) pl ts lg)
  = mkState (withFlags true false) (withFlags true false)
      ({[ id M3 ]} ∪ ({[ id M1 ]} ∪ pl))
      ((ts ++ [mkTask (withFlags true false) M1 Returned])
          ++ [mkTask (withFlags true false) M3 Returned])
      ((((lg ++ [TtsRequest M1]) ++ [AudioPlay M1])
          ++ [TtsRequest M3]) ++ [AudioPlay M3]).
Proof.
  pose proof (first_is_M1 pre M1 M2 M3 pl pre_done M1_ai M2_user M3_ai
                M1_new M3_new M1_M3) as Hsel1.
  pose proof (second_is_M3 pre M1 M2 M3 pl pre_done M1_ai M2_user M3_ai
                M1_new M3_new M1_M3) as Hsel3.
  pose proof (then_none pre M1 M2 M3 pl pre_done M1_ai M2_user M3_ai
                M1_new M3_new M1_M3) as Hsel0.
  pose proof (hasUnplayed_next _ _ _ Hsel1) as Hhas.
  assert (existsb (unplayed ({[ id M3 ]} ∪ ({[ id M1 ]} ∪ pl)))
            (aiMessages (pre ++ [M1; M2; M3])) = false) as Hnone.
  { revert Hsel0. unfold nextMessage. generalize (aiMessages (pre ++ [M1; M2; M3])).
    intros l. induction l as [|x l IH]; simpl; [done|].
    destruct (unplayed _ x); [done|]. apply IH. }
  (* autoplay is switched on and the effect starts the chain with M1 *)
  next. unfold toggleAutoplay. cells.
  next. unfold render. cells.
  unfold autoplayEffect. cells. rewrite Hhas.
  unfold playNextMessage. cells. rewrite Hsel1. cells.
  next. unfold render. cells. unfold autoplayEffect. cells.
  (* the audio of M1 arrives and is played to its end; the chain goes on *)
  next. rewrite fetchSettled_ready by done.
  next. unfold render. cells.
  next. rewrite audioSettled_done by done.
  unfold resume, playNextMessage. cells. rewrite Hsel3. cells.
  next. unfold render. cells.
  (* the same for M3, after which nothing is left *)
  next. rewrite fetchSettled_ready by (by rewrite length_app, Nat.add_1_r).
  next. unfold render. cells.
  next. rewrite audioSettled_done by (by rewrite length_app, Nat.add_1_r).
  unfold resume, playNextMessage. cells. rewrite Hsel0. cells.
  next. unfold render. cells. unfold autoplayEffect. cells. rewrite Hnone.
  reflexivity.
Qed.

End FifoRun.

(** The specification's example, with a render after every event.
    Messages M1 (assistant), M2 (user) and M3 (assistant) stand in that
    order at the end of the list, neither M1 nor M3 played yet and
    everything before them played or sent by the user.  Switching autoplay
    on in the idle, rendered component sends M1 for synthesis and plays it,
    then M3, and nothing else: M2 is skipped and M3 never precedes M1. *)
Lemma fifo_three_messages
    (s : ChatWindow.State) (pre : list Message) (M1 M2 M3 : Message)
    (o1 o3 : ChatWindow.AudioOutcome) :
  ChatWindow.view s = ChatWindow.hooks s →
  ChatWindow.isAutoplayActive (ChatWindow.hooks s) = false →
  ChatWindow.isPlayingAudio (ChatWindow.hooks s) = false →
  ChatWindow.messages (ChatWindow.hooks s) = pre ++ [M1; M2; M3] →
  Forall (λ m, sender m = user ∨ id m ∈ ChatWindow.played s) pre →
  sender M1 = ai → sender M2 = user → sender M3 = ai →
  id M1 ∉ ChatWindow.played s → id M3 ∉ ChatWindow.played s →
  id M1 ≠ id M3 →
  let n := length (ChatWindow.tasks s) in
  let s' := ChatWindow.run
              [ChatWindow.ClickAutoplay; ChatWindow.Render; ChatWindow.Render;
               ChatWindow.FetchSettled n ChatWindow.BlobReady;
               ChatWindow.Render;
               ChatWindow.AudioSettled n o1; ChatWindow.Render;
               ChatWindow.FetchSettled (S n) ChatWindow.BlobReady;
               ChatWindow.Render;
               ChatWindow.AudioSettled (S n) o3; ChatWindow.Render] s in
  ChatWindow.log s'
    = ChatWindow.log s ++ [ChatWindow.TtsRequest M1; ChatWindow.AudioPlay M1;
                           ChatWindow.TtsRequest M3; ChatWindow.AudioPlay M3]
  ∧ ChatWindow.played s' = {[ id M3 ]} ∪ ({[ id M1 ]} ∪ ChatWindow.played s)
  ∧ ChatWindow.isPlayingAudio (ChatWindow.hooks s') = false.
Proof.
  destruct s as [h v pl ts lg]. destruct h as [ms ref inp ld er act pa].
  cbn [ChatWindow.view ChatWindow.hooks ChatWindow.isAutoplayActive
       ChatWindow.isPlayingAudio ChatWindow.messages ChatWindow.played
       ChatWindow.tasks ChatWindow.log].
  intros -> -> -> -> Hpre H1 H2 H3 Hn1 Hn3 Hne.
  rewrite fifo_run by done.
  cbn [ChatWindow.view ChatWindow.hooks ChatWindow.isAutoplayActive
       ChatWindow.isPlayingAudio ChatWindow.messages ChatWindow.played
       ChatWindow.tasks ChatWindow.log].
  split; [|done]. by rewrite <- !app_assoc.
Qed.

(** ** The order of narration, for every list *)

Section Queue.

Import ChatWindow Narration.

Lemma run_app (evs1 evs2 : list Event) (s : State) :
  run (evs1 ++ evs2) s = run evs2 (run evs1 s).
Proof. apply fold_left_app. Qed.

(** The head of the queue is the message the code selects, and the rest
    of the queue is the queue once that message is played. *)
Lemma queue_cons (pl : gset MsgId) (ms : list Message) (m : Message)
    (q : list Message) :
  queue pl ms = m :: q →
  nextMessage ms pl = Some m ∧ queue ({[ id m ]} ∪ pl) ms = q.
Proof.
  unfold nextMessage, aiMessages.
  induction ms as [|x ms IH]; intros Hq; [done|].
  simpl in Hq. rewrite filter_cons. cbn [queue].
  destruct (decide (sender x = ai)) as [Hai | Hai].
  - rewrite (bool_decide_eq_true_2 _ Hai) in Hq |- *. simpl in Hq |- *.
    unfold unplayed at 1.
    destruct (bool_decide (id x ∉ pl)) eqn:Hun.
    + injection Hq as -> Hq. split; [done|].
      rewrite bool_decide_eq_false_2; [done|].
      intros Hnot. by apply Hnot, elem_of_union_l, elem_of_singleton.
    + destruct (IH Hq) as [Hnext Hrest]. split; [done|].
      apply bool_decide_eq_false in Hun.
      rewrite bool_decide_eq_false_2; [done|].
      intros Hnot. apply Hun. intros Hin. by apply Hnot, elem_of_union_r.
  - rewrite (bool_decide_eq_false_2 _ Hai) in Hq |- *. simpl in Hq |- *.
    by apply IH.
Qed.

(** An empty queue: the code finds nothing to play. *)
Lemma queue_nil (pl : gset MsgId) (ms : list Message) :
  queue pl ms = [] →
  existsb (unplayed pl) (aiMessages ms) = false ∧ nextMessage ms pl = None.
Proof.
  unfold nextMessage, aiMessages.
  induction ms as [|x ms IH]; intros Hq; [done|].
  simpl in Hq. rewrite filter_cons.
  destruct (decide (sender x = ai)) as [Hai | Hai].
  - rewrite (bool_decide_eq_true_2 _ Hai) in Hq. simpl in Hq |- *.
    unfold unplayed at 1 3.
    destruct (bool_decide (id x ∉ pl)); [done|]. by apply IH.
  - rewrite (bool_decide_eq_false_2 _ Hai) in Hq. by apply IH.
Qed.

(** The specification's example as a queue. *)
Lemma queue_three (pre : list Message) (M1 M2 M3 : Message) (pl : gset MsgId) :
  Forall (λ m, sender m = user ∨ id m ∈ pl) pre →
  sender M1 = ai → sender M2 = user → sender M3 = ai →
  id M1 ∉ pl → id M3 ∉ pl → id M1 ≠ id M3 →
  queue pl (pre ++ [M1; M2; M3]) = [M1; M3].
Proof.
  intros Hpre H1 H2 H3 Hn1 Hn3 Hne.
  induction pre as [|x pre IH]; simpl.
  - rewrite (bool_decide_eq_true_2 _ H1), (bool_decide_eq_true_2 _ Hn1). simpl.
    rewrite (bool_decide_eq_false_2 (sender M2 = ai)) by congruence. simpl.
    rewrite (bool_decide_eq_true_2 _ H3).
    rewrite bool_decide_eq_true_2; [done|].
    intros [Hin%elem_of_singleton | Hin]%elem_of_union; [congruence | done].
  - apply Forall_cons in Hpre as [Hx Hpre].
    destruct Hx as [Hx | Hx].
    + rewrite (bool_decide_eq_false_2 (sender x = ai)) by congruence.
      by apply IH.
    + rewrite (bool_decide_eq_false_2 (id x ∉ pl)) by auto.
      rewrite andb_false_r. by apply IH.
Qed.

(** While audio is marked as playing, or nothing is left to play, a render
    does nothing but hand the current cells to the next handlers. *)
Lemma render_quiet (s : State) :
  isPlayingAudio (hooks s) = true
  ∨ existsb (unplayed (played s)) (aiMessages (messages (hooks s))) = false →
  render s = mkState (hooks s) (hooks s) (played s) (tasks s) (log s).
Proof.
  intros Hq. unfold render. destruct (depsChanged _ _); [|done].
  unfold autoplayEffect. cbn [played].
  destruct Hq as [-> | ->]; [by rewrite andb_false_r|].
  by destruct (_ && _).
Qed.

Lemma renders_quiet (k : nat) (h v : Hooks) (pl : gset MsgId)
    (ts : list Task) (lg : list Effect) :
  isPlayingAudio h = true
  ∨ existsb (unplayed pl) (aiMessages (messages h)) = false →
  ∃ v', run (replicate k Render) (mkState h v pl ts lg) = mkState h v' pl ts lg.
Proof.
  intros Hq. revert v. induction k as [|k IH]; intros v; [by eexists|].
  cbn [replicate]. rewrite run_cons. cbn [step].
  rewrite render_quiet by done. apply IH.
Qed.

(** The chain, followed from a request in flight to its end. *)
Lemma chain_run (c : Hooks) :
  isAutoplayActive c = true →
  ∀ (turns : list Turn) (q : list Message) (m : Message) (pl : gset MsgId)
    (h v : Hooks) (ts : list Task) (lg : list Effect) (k : nat),
  isPlayingAudio h = true →
  messages h = messages c →
  queue pl (messages c) = m :: q →
  length turns = S (length q) →
  let s' := run (chain (length ts) turns ++ replicate k Render)
              (mkState h v pl (ts ++ [mkTask c m Fetching]) lg) in
  hooks s' = setIsPlayingAudio false h
  ∧ played s' = ids (m :: q) ∪ pl
  ∧ log s' = lg ++ AudioPlay m :: narration q.
Proof.
  intros Hauto turns.
  induction turns as [|t turns IH]; intros q m pl h v ts lg k Hplay Hms Hq Hlen;
    [done|].
  cbv zeta. cbn [chain].
  rewrite <- app_assoc, <- app_comm_cons, <- app_assoc, <- app_comm_cons.
  (* the synthesis is awaited, arrives, and the audio sounds *)
  rewrite run_app.
  destruct (renders_quiet (rendersWhileFetching t) h v pl
              (ts ++ [mkTask c m Fetching]) lg (or_introl Hplay)) as [v1 ->].
  rewrite run_cons. cbn [step]. rewrite fetchSettled_ready by done.
  rewrite run_app.
  destruct (renders_quiet (rendersWhileSounding t) h v1 pl
              (ts ++ [mkTask c m Sounding]) (lg ++ [AudioPlay m])
              (or_introl Hplay)) as [v2 ->].
  (* the playback ends and the closure goes on *)
  rewrite run_cons. cbn [step]. rewrite audioSettled_done by done.
  destruct (queue_cons _ _ _ _ Hq) as [_ Hrest].
  unfold resume, playNextMessage. rewrite Hauto. cbn [played].
  destruct q as [|m2 q2].
  - destruct (queue_nil _ _ Hrest) as [Hnone ->].
    destruct turns; [|done]. cbn [chain app].
    destruct (renders_quiet k (setIsPlayingAudio false (setIsPlayingAudio false h))
                v2 ({[ id m ]} ∪ pl) (ts ++ [mkTask c m Returned])
                (lg ++ [AudioPlay m])) as [v3 Hv3].
    { right. cbn [messages setIsPlayingAudio]. by rewrite Hms. }
    unfold update. cbn [hooks view played tasks log].
    rewrite Hv3. cbn [hooks played log]. split; [done|].
    split; [|done]. unfold ids. simpl. by rewrite (right_id_L ∅ (∪)).
  - destruct (queue_cons _ _ _ _ Hrest) as [-> _].
    unfold playAIMessageTTS, spawn, emit, update.
    cbn [hooks view played tasks log].
    replace (S (length ts)) with (length (ts ++ [mkTask c m Returned]))
      by (rewrite length_app; simpl; lia).
    destruct (IH q2 m2 ({[ id m ]} ∪ pl)
                (setIsPlayingAudio true (setIsPlayingAudio false h)) v2
                (ts ++ [mkTask c m Returned])
                ((lg ++ [AudioPlay m]) ++ [TtsRequest m2]) k)
      as (Hh & Hp & Hl); [done|done|done|by simpl in Hlen; lia|].
    rewrite Hh, Hp, Hl. split; [done|]. split.
    + unfold ids. simpl.
      by rewrite (assoc_L (∪)), (comm_L (∪) _ {[ id m ]}).
    + by rewrite <- !app_assoc.
Qed.

End Queue.

(** Autoplay switched on in an idle, rendered component, followed to the
    end of the chain: what is narrated is the queue. *)
Lemma enabling_run
    (s : ChatWindow.State) (turns : list Narration.Turn) (after : nat) :
  ChatWindow.view s = ChatWindow.hooks s →
  ChatWindow.isAutoplayActive (ChatWindow.hooks s) = false →
  ChatWindow.isPlayingAudio (ChatWindow.hooks s) = false →
  length turns
  = length (Narration.queue (ChatWindow.played s)
              (ChatWindow.messages (ChatWindow.hooks s))) →
  let q := Narration.queue (ChatWindow.played s)
             (ChatWindow.messages (ChatWindow.hooks s)) in
  let s' := ChatWindow.run
              (Narration.enabling (length (ChatWindow.tasks s)) turns after) s in
  ChatWindow.log s' = ChatWindow.log s ++ Narration.narration q
  ∧ ChatWindow.played s' = Narration.ids q ∪ ChatWindow.played s
  ∧ ChatWindow.isPlayingAudio (ChatWindow.hooks s') = false.
Proof.
  destruct s as [h v pl ts lg]. destruct h as [ms ref inp ld er act pa].
  cbn [ChatWindow.view ChatWindow.hooks ChatWindow.isAutoplayActive
       ChatWindow.isPlayingAudio ChatWindow.messages ChatWindow.played
       ChatWindow.tasks ChatWindow.log].
  intros -> -> -> Hlen. cbv zeta. unfold Narration.enabling.
  (* the click, and the render whose effect starts the chain *)
  next. unfold ChatWindow.toggleAutoplay. cells.
  next. unfold ChatWindow.render. cells.
  unfold ChatWindow.autoplayEffect. cells.
  destruct (Narration.queue pl ms) as [|m q] eqn:Hq.
  - destruct (queue_nil _ _ Hq) as [Hnone _]. rewrite Hnone.
    destruct turns; [|done]. cbn [Narration.chain app].
    destruct (renders_quiet after
                (ChatWindow.mkHooks ms ref inp ld er true false)
                (ChatWindow.mkHooks ms ref inp ld er true false) pl ts lg)
      as [v' ->]; [by right|].
    cbn [ChatWindow.log ChatWindow.played ChatWindow.hooks
         ChatWindow.isPlayingAudio].
    split; [by rewrite app_nil_r|]. split; [|done].
    unfold Narration.ids. simpl. by rewrite (left_id_L ∅ (∪)).
  - destruct (queue_cons _ _ _ _ Hq) as [Hnext _].
    rewrite (hasUnplayed_next _ _ _ Hnext).
    unfold ChatWindow.playNextMessage. cells. rewrite Hnext. cells.
    destruct (chain_run (ChatWindow.mkHooks ms ref inp ld er true false)
                eq_refl turns q m pl
                (ChatWindow.mkHooks ms ref inp ld er true true)
                (ChatWindow.mkHooks ms ref inp ld er true false)
                ts (lg ++ [ChatWindow.TtsRequest m]) after)
      as (Hh & Hp & Hl); [done|done|done|done|].
    rewrite Hh, Hp, Hl. split; [|done].
    by rewrite <- app_assoc.
Qed.

(** C6.  Autoplay narrates the eligible messages in strict insertion
    order.  Autoplay is switched on in an idle, rendered component, every
    synthesis succeeds and every playback ends in one of its three ways,
    with React rendering any number of times in between.  Then, whatever
    the message list and the set of played ids, the messages sent for
    synthesis and played are exactly those of the specification's queue,
    in its order and each followed by its playback: the assistant's
    messages in insertion order whose id was not played before, the
    messages of the user skipped.  Their ids are played afterwards, and
    the component is idle again.  In particular, with M1 (assistant), M2
    (user) and M3 (assistant) in that order at the end of the list, M1 and
    M3 not played and everything before them played or sent by the user,
    M1 is narrated, then M3, and nothing else. *)
Theorem autoplay_fifo
    (s : ChatWindow.State) (turns : list Narration.Turn) (after : nat) :
  ChatWindow.view s = ChatWindow.hooks s →
  ChatWindow.isAutoplayActive (ChatWindow.hooks s) = false →
  ChatWindow.isPlayingAudio (ChatWindow.hooks s) = false →
  length turns
  = length (Narration.queue (ChatWindow.played s)
              (ChatWindow.messages (ChatWindow.hooks s))) →
  let q := Narration.queue (ChatWindow.played s)
             (ChatWindow.messages (ChatWindow.hooks s)) in
  let s' := ChatWindow.run
              (Narration.enabling (length (ChatWindow.tasks s)) turns after) s in
  ChatWindow.log s' = ChatWindow.log s ++ Narration.narration q
  ∧ ChatWindow.played s' = Narration.ids q ∪ ChatWindow.played s
  ∧ ChatWindow.isPlayingAudio (ChatWindow.hooks s') = false
  ∧ ∀ (pre : list Message) (M1 M2 M3 : Message),
      ChatWindow.messages (ChatWindow.hooks s) = pre ++ [M1; M2; M3] →
      Forall (λ m, sender m = user ∨ id m ∈ ChatWindow.played s) pre →
      sender M1 = ai → sender M2 = user → sender M3 = ai →
      id M1 ∉ ChatWindow.played s → id M3 ∉ ChatWindow.played s →
      id M1 ≠ id M3 →
      ChatWindow.log s'
      = ChatWindow.log s
        ++ [ChatWindow.TtsRequest M1; ChatWindow.AudioPlay M1;
            ChatWindow.TtsRequest M3; ChatWindow.AudioPlay M3].
Proof.
  intros Hview Hoff Hidle Hlen. cbv zeta.
  destruct (enabling_run s turns after Hview Hoff Hidle Hlen) as (Hl & Hp & Hf).
  split; [done|]. split; [done|]. split; [done|].
  intros pre M1 M2 M3 Hms Hpre H1 H2 H3 Hn1 Hn3 Hne.
  rewrite Hl, Hms. by rewrite (queue_three pre M1 M2 M3).
Qed.

(** C6 at the sample component: a greeting, an answer, a spoken question
    and a second answer; the first answer is narrated, then the second. *)
Lemma autoplay_fifo_witness :
  ChatWindow.log
    (ChatWindow.run
       (Narration.enabling (length (ChatWindow.tasks Sample.three))
          [Narration.mkTurn 1 1 ChatWindow.AudioEnded;
           Narration.mkTurn 0 0 ChatWindow.PlayRejected] 1)
       Sample.three)
  = ChatWindow.log Sample.three
    ++ [ChatWindow.TtsRequest Sample.A; ChatWindow.AudioPlay Sample.A;
        ChatWindow.TtsRequest Sample.B; ChatWindow.AudioPlay Sample.B].
Proof.
  refine (proj2 (proj2 (proj2 (autoplay_fifo Sample.three
            [Narration.mkTurn 1 1 ChatWindow.AudioEnded;
             Narration.mkTurn 0 0 ChatWindow.PlayRejected] 1 _ _ _ _)))
            [ChatWindow.greeting 0] Sample.A Sample.U Sample.B
            _ _ _ _ _ _ _ _).
  - reflexivity.
  - reflexivity.
  - reflexivity.
  - vm_compute. reflexivity.
  - reflexivity.
  - constructor; [right; apply (bool_decide_unpack _); vm_compute; exact I|].
    constructor.
  - reflexivity.
  - reflexivity.
  - reflexivity.
  - apply (bool_decide_unpack _). vm_compute. exact I.
  - apply (bool_decide_unpack _). vm_compute. exact I.
  - apply (bool_decide_unpack _). vm_compute. exact I.
Defined.

(** With three answers waiting, the order is still that of the list. *)
Example autoplay_three_answers :
  Spec.sounded
    (ChatWindow.log
       (ChatWindow.run
          (Narration.enabling 0
             [Narration.mkTurn 0 0 ChatWindow.AudioEnded;
              Narration.mkTurn 0 1 ChatWindow.AudioEnded;
              Narration.mkTurn 1 0 ChatWindow.AudioErrored] 1)
          (ChatWindow.run
             [ChatWindow.AiMessageEvent (Sample.detail "c" "third answer") 4;
              ChatWindow.Render] Sample.two)))
  = [Sample.A; Sample.B;
     ChatWindow.aiMessageOfEvent (Sample.wire "c" "third answer") 4].
Proof. vm_compute. reflexivity. Qed.

(** ** Where the autoplay chain departs from its contract *)

Example sample_two_messages :
  ChatWindow.messages (ChatWindow.hooks Sample.two)
  = [ChatWindow.greeting 0; Sample.A; Sample.B].
Proof. reflexivity. Qed.

(** C1, the code at a failing input.  Autoplay is switched on with the
    answers A and B unplayed.  The synthesis of A comes back unsuccessful,
    and the retry fails in the network: neither failure adds A's id to the
    set of played ids, and each time the queue asks for A again; B is never
    reached and nothing is played. *)
Theorem failed_synthesis_repeats_message :
  let s := ChatWindow.run
             [ChatWindow.ClickAutoplay; ChatWindow.Render; ChatWindow.Render;
              ChatWindow.FetchSettled 0 ChatWindow.ResponseNotOk;
              ChatWindow.Render;
              ChatWindow.FetchSettled 1 ChatWindow.FetchRejected;
              ChatWindow.Render] Sample.two in
  ChatWindow.played s = {[ IdNum 1 ]}
  ∧ (id Sample.A ∉ ChatWindow.played s)
  ∧ Spec.requested (ChatWindow.log s) = [Sample.A; Sample.A; Sample.A]
  ∧ Spec.sounded (ChatWindow.log s) = []
  ∧ ChatWindow.nextMessage
      (ChatWindow.messages (ChatWindow.hooks s)) (ChatWindow.played s)
    = Some Sample.A.
Proof.
  cbv zeta. split; [by vm_compute|].
  split; [apply (bool_decide_unpack _); by vm_compute|].
  split; [by vm_compute|]. split; by vm_compute.
Qed.

(** C4, the code at a failing input.  Autoplay is switched on with A and B
    unplayed, A is sent for synthesis, and autoplay is switched off and the
    component rendered while that request is in flight.  When the audio
    arrives it is played all the same, and when it ends the continuation
    tests the flag its own render captured, which is still set: A is marked
    played, B is sent for synthesis, played and marked played, all with
    autoplay off. *)
Theorem disabled_autoplay_resumes :
  let s1 := ChatWindow.run
              [ChatWindow.ClickAutoplay; ChatWindow.Render; ChatWindow.Render;
               ChatWindow.ClickAutoplay; ChatWindow.Render] Sample.two in
  let s2 := ChatWindow.run
              [ChatWindow.FetchSettled 0 ChatWindow.BlobReady;
               ChatWindow.Render;
               ChatWindow.AudioSettled 0 ChatWindow.AudioEnded;
               ChatWindow.Render;
               ChatWindow.FetchSettled 1 ChatWindow.BlobReady;
               ChatWindow.Render;
               ChatWindow.AudioSettled 1 ChatWindow.AudioEnded;
               ChatWindow.Render] s1 in
  ChatWindow.isAutoplayActive (ChatWindow.hooks s1) = false
  ∧ ChatWindow.view s1 = ChatWindow.hooks s1
  ∧ ChatWindow.log s1 = [ChatWindow.TtsRequest Sample.A]
  ∧ ChatWindow.played s1 = {[ IdNum 1 ]}
  ∧ ChatWindow.isAutoplayActive (ChatWindow.hooks s2) = false
  ∧ ChatWindow.log s2
    = [ChatWindow.TtsRequest Sample.A; ChatWindow.AudioPlay Sample.A;
       ChatWindow.TtsRequest Sample.B; ChatWindow.AudioPlay Sample.B]
  ∧ ChatWindow.played s2 = {[ IdNum 1; id Sample.A; id Sample.B ]}.
Proof.
  cbv zeta. repeat (split; [by vm_compute|]). by vm_compute.
Qed.

(** C5, the code at a failing input.  Autoplay is switched on with A
    unplayed, so A is sent for synthesis; autoplay is switched off, which
    lowers the playing flag while the request is in flight, and on again:
    A is not in the set yet, so it is sent a second time.  Both requests
    succeed and A is played twice. *)
Theorem retoggle_narrates_twice :
  let s := ChatWindow.run
             [ChatWindow.ClickAutoplay; ChatWindow.Render; ChatWindow.Render;
              ChatWindow.ClickAutoplay; ChatWindow.Render;
              ChatWindow.ClickAutoplay; ChatWindow.Render; ChatWindow.Render;
              ChatWindow.FetchSettled 0 ChatWindow.BlobReady; ChatWindow.Render;
              ChatWindow.FetchSettled 1 ChatWindow.BlobReady; ChatWindow.Render;
              ChatWindow.AudioSettled 0 ChatWindow.AudioEnded; ChatWindow.Render;
              ChatWindow.AudioSettled 1 ChatWindow.AudioEnded; ChatWindow.Render]
             Sample.one in
  Spec.requested (ChatWindow.log s) = [Sample.A; Sample.A]
  ∧ Spec.sounded (ChatWindow.log s) = [Sample.A; Sample.A]
  ∧ ChatWindow.played s = {[ IdNum 1; id Sample.A ]}.
Proof.
  cbv zeta. repeat (split; [by vm_compute|]). by vm_compute.
Qed.

(** ** Screen sharing: when a frame is captured *)

Section Capture.

Import ScreenShare Spec.

Variable origin : jsstring.

Lemma captures_emit (o : Output) (s : State) :
  captures (out (emit o s)) = captures (out s) + (if isCapture o then 1 else 0).
Proof.
  unfold captures. simpl. rewrite List.filter_app, length_app. simpl.
  destruct (isCapture o); simpl; lia.
Qed.

Lemma captures_stop (c : Cells) (s : State) :
  captures (out (stopScreenShare c s)) = captures (out s).
Proof.
  unfold stopScreenShare, captures. simpl.
  destruct (stream c); simpl; rewrite !List.filter_app, !length_app; simpl; lia.
Qed.

(** Only a click on the screenshot button that reaches its handler
    captures a frame. *)
Lemma captures_step (s : State) (e : Event) :
  captures (out (step origin s e))
  ≤ captures (out s) + (if isScreenshotClick e then 1 else 0).
Proof.
  destruct e; simpl.
  - lia.
  - destruct (_ && _); [|lia]. unfold captures. simpl.
    rewrite List.filter_app, length_app. simpl. lia.
  - unfold tokenSettled. destruct (starts s !! i) as [t|]; [|lia].
    destruct (st_stage t), token; try lia.
    + rewrite captures_emit. simpl. lia.
    + simpl. lia.
  - unfold displaySettled. destruct (starts s !! i) as [t|]; [|lia].
    destruct (st_stage t), granted; try lia.
    + rewrite captures_emit. simpl. lia.
    + simpl. lia.
  - destruct (showsSharingPanel s); [|lia]. rewrite captures_stop. lia.
  - unfold trackEnded. destruct (starts s !! i) as [t|]; [|lia].
    destruct (st_stage t); try lia. rewrite captures_stop. lia.
  - destruct (_ && _); [|lia]. unfold captures. simpl.
    rewrite List.filter_app, length_app. simpl. lia.
  - unfold uploadSettled. destruct (uploads s !! i) as [[| |]|]; try lia.
    destruct o; unfold uploadDone; simpl.
    + change (captures (out (emit (Alert (lit "Screenshot upload failed: " ++ err)) s))
              ≤ captures (out s) + 0).
      rewrite captures_emit. simpl. lia.
    + change (captures (out (emit (Alert (lit "Failed to upload screenshot: "
                                          ++ default (lit "unknown") err)) s))
              ≤ captures (out s) + 0).
      rewrite captures_emit. simpl. lia.
    + change (captures (out (emit (ChatSend (screenshotMessage origin ocr_text url)) s))
              ≤ captures (out s) + 0).
      rewrite captures_emit. simpl. lia.
  - unfold notified. destruct (uploads s !! i) as [[| |]|]; try lia.
    unfold uploadDone. simpl.
    change (captures (out (emit (Alert (lit "Screenshot sent to AI successfully."))
                        (emit (Dispatch (payload msg r now)) s)))
            ≤ captures (out s) + 0).
    rewrite !captures_emit. simpl. lia.
Qed.

Lemma captures_run (evs : list Event) (s : State) :
  captures (out (run origin evs s)) ≤ captures (out s) + clicks evs.
Proof.
  revert s. induction evs as [|e evs IH]; intros s; simpl; [unfold clicks; simpl; lia|].
  etrans; [apply IH|]. pose proof (captures_step s e) as Hs.
  unfold clicks in *. simpl. destruct (isScreenshotClick e); simpl; lia.
Qed.

End Capture.

Section InFlight.

Import ScreenShare Spec.

Variable origin : jsstring.

Lemma pending_insert (l : list UploadStage) (i : nat) (a b : UploadStage) :
  l !! i = Some a →
  length (filter (λ u, u ≠ Finished) (<[ i := b ]> l)) + busy a
  = length (filter (λ u, u ≠ Finished) l) + busy b.
Proof.
  revert i. induction l as [|x l IH]; intros i Hi; [done|].
  destruct i as [|i]; simpl in *.
  - injection Hi as ->. rewrite !filter_cons. unfold busy.
    repeat case_decide; simpl; lia.
  - specialize (IH i Hi). rewrite !filter_cons.
    case_decide; simpl; lia.
Qed.

Lemma single_same (s s' : State) :
  uploads s' = uploads s →
  isUploadingScreenshot (cells s') = isUploadingScreenshot (cells s) →
  single s → single s'.
Proof.
  unfold single, inFlight. intros -> ->. done.
Qed.

Lemma single_uploadDone (i : nat) (a : UploadStage) (s s0 : State) :
  uploads s0 = uploads s →
  uploads s !! i = Some a → a ≠ Finished →
  single s → single (uploadDone i s0).
Proof.
  unfold single, inFlight, uploadDone. simpl. intros -> Hi Ha [Hle _].
  pose proof (pending_insert _ i a Finished Hi) as Hp.
  unfold busy in Hp. repeat case_decide; try done. lia.
Qed.

Lemma single_step (s : State) (e : Event) :
  single s → single (step origin s e).
Proof.
  intros Hs. destruct e; simpl.
  - by apply (single_same s).
  - destruct (_ && _); [|done]. by apply (single_same s).
  - unfold tokenSettled. destruct (starts s !! i) as [t|]; [|done].
    destruct (st_stage t), token; try done; by apply (single_same s).
  - unfold displaySettled. destruct (starts s !! i) as [t|]; [|done].
    destruct (st_stage t), granted; try done; by apply (single_same s).
  - destruct (showsSharingPanel s); [|done].
    apply (single_same s); [| |done]; unfold stopScreenShare;
      by destruct (stream (cells s)).
  - unfold trackEnded. destruct (starts s !! i) as [t|]; [|done].
    destruct (st_stage t); try done.
    apply (single_same s); [| |done]; unfold stopScreenShare;
      by destruct (stream (st_closure t)).
  - destruct (showsSharingPanel s && _) eqn:Hen; [|done].
    apply andb_true_iff in Hen as [_ Hfl]. apply negb_true_iff in Hfl.
    destruct Hs as [_ Hzero]. specialize (Hzero Hfl).
    unfold single, inFlight in *. simpl. rewrite filter_app, length_app.
    rewrite Hzero. rewrite filter_cons_True by done. simpl. split; [lia|done].
  - unfold uploadSettled. destruct (uploads s !! i) as [a|] eqn:Hi; [|done].
    destruct a; try done. destruct o.
    + by eapply (single_uploadDone i Uploading s).
    + by eapply (single_uploadDone i Uploading s).
    + destruct Hs as [Hle Hzero].
      pose proof (pending_insert _ i Uploading
                    (Notifying (screenshotMessage origin ocr_text url)) Hi) as Hp.
      unfold busy in Hp. repeat case_decide; try done.
      unfold single, inFlight in *. simpl. split; [lia|].
      intros Hfl. specialize (Hzero Hfl). lia.
  - unfold notified. destruct (uploads s !! i) as [a|] eqn:Hi; [|done].
    destruct a; try done.
    by eapply (single_uploadDone i (Notifying msg) s).
Qed.

Lemma single_run (evs : list Event) (s : State) :
  single s → single (run origin evs s).
Proof.
  revert s. induction evs as [|e evs IH]; intros s Hs; simpl; [done|].
  by apply IH, single_step.
Qed.

End InFlight.

(** C2, what the code does when a session starts.  Starting to share sets
    the sharing flag and calls [onStart], and nothing else: no timer is set
    and the component has no periodic event.  In whatever follows, frames
    are captured only by clicks on the screenshot button, at most one per
    click, and at most one capture and upload is pending at any time. *)
Theorem capture_only_on_click
    (origin channel : jsstring) (tok : Z) (strm : nat)
    (evs : list ScreenShare.Event) :
  let started :=
    ScreenShare.run origin
      [ScreenShare.ScreenShareRequested; ScreenShare.ClickShare channel;
       ScreenShare.TokenSettled 0 (Some tok) [];
       ScreenShare.DisplaySettled 0 (Some strm) []] ScreenShare.init in
  ScreenShare.isSharing (ScreenShare.cells started) = true
  ∧ ScreenShare.out started
    = [ScreenShare.TokenRequest channel; ScreenShare.DisplayMediaRequest;
       ScreenShare.OnStart]
  ∧ Spec.captures (ScreenShare.out (ScreenShare.run origin evs started))
    ≤ Spec.clicks evs
  ∧ ScreenShare.inFlight (ScreenShare.run origin evs started) ≤ 1.
Proof.
  cbv zeta. split; [done|]. split; [done|]. split.
  - etrans; [apply captures_run|]. done.
  - eapply proj1, (single_run origin evs).
    unfold Spec.single, ScreenShare.inFlight. simpl. split; [lia|done].
Qed.

(** ** Uploads that outlive the session *)

Section Completion.

Lemma fresh_app {A} (l k : list A) : App.fresh l (l ++ k) = k.
Proof. unfold App.fresh. by rewrite drop_app_length. Qed.

End Completion.

(** C3, the claim at a concrete input: the user stopped sharing while a
    screenshot was being uploaded; when the upload and the announcement
    complete, an [ai-message] event is dispatched and the chat window
    appends its message. *)
Lemma upload_after_stop_is_published : ¬ Spec.discards_after_stop Sample.page.
Proof.
  intros H.
  specialize (H 0%Z Sample.stoppedWhileUploading 0 Sample.answer 9%N).
  cbv zeta in H. specialize (H eq_refl). destruct H as [H _].
  apply (f_equal length) in H. vm_compute in H. discriminate.
Qed.

(** C3, amended.  When the announcement of an accepted screenshot settles,
    the handler dispatches one [ai-message] event and the chat window's
    listener handles it, appending the message it carries; the handler does
    not consult the sharing state, so this happens alike while sharing and
    after the session was stopped. *)
Theorem upload_completion_ignores_stop
    (origin : jsstring) (s : App.State) (i : nat) (msg : jsstring)
    (r : ChatService.SendResult) (now : N) :
  ScreenShare.uploads (App.share s) !! i = Some (ScreenShare.Notifying msg) →
  let d := ScreenShare.payload msg r now in
  let s' := App.step origin s (App.Share (ScreenShare.Notified i r now)) in
  App.dispatched s' = App.dispatched s ++ [d]
  ∧ App.chat s' = ChatWindow.aiMessageHandler (Some d) now (App.chat s)
  ∧ App.store s'
    = App.store s ++ match ChatService.message d with
                     | Some w => [ChatWindow.aiMessageOfEvent w now]
                     | None => []
                     end
  ∧ ScreenShare.isSharing (ScreenShare.cells (App.share s'))
    = ScreenShare.isSharing (ScreenShare.cells (App.share s)).
Proof.
  intros Hi. cbv zeta. destruct s as [sh c]. simpl in Hi.
  unfold App.step. cbn [App.share App.chat ScreenShare.step].
  unfold ScreenShare.notified. rewrite Hi.
  unfold ScreenShare.uploadDone, ScreenShare.update, ScreenShare.setUpload,
    ScreenShare.emit.
  cbn [ScreenShare.out ScreenShare.cells ScreenShare.isActive
       ScreenShare.starts ScreenShare.uploads App.share App.chat].
  rewrite <- app_assoc, fresh_app. cbn [fold_left App.deliver app].
  split; [|split; [done|split; [|done]]].
  - unfold App.dispatched. cbn [App.share ScreenShare.out].
    by rewrite omap_app.
  - unfold App.store, ChatWindow.aiMessageHandler. cbn [App.chat].
    destruct (ChatService.message _); [done|]. by rewrite app_nil_r.
Qed.

(** The amended C3 at the sample page: sharing was stopped, and the
    completion still dispatches its event. *)
Lemma upload_completion_ignores_stop_witness :
  let s := App.run Sample.page Sample.stoppedWhileUploading (App.init 0) in
  ScreenShare.isSharing (ScreenShare.cells (App.share s)) = false
  ∧ App.dispatched
      (App.step Sample.page s
         (App.Share (ScreenShare.Notified 0 Sample.answer 9)))
    = App.dispatched s
      ++ [ScreenShare.payload
            (ScreenShare.screenshotMessage Sample.page (Some (lit "Error 42"))
               (lit "/shots/1.png")) Sample.answer 9].
Proof.
  cbv zeta. split; [reflexivity|].
  refine (proj1 (upload_completion_ignores_stop Sample.page
            (App.run Sample.page Sample.stoppedWhileUploading (App.init 0))
            0 _ _ 9 _)).
  reflexivity.
Defined.

(** ** Further properties of the autoplay chain *)

(** X1.  The set of played ids never loses an element: whatever events
    reach the chat window, every id in the set before is in it after. *)
Theorem played_only_grows (evs : list ChatWindow.Event) (s : ChatWindow.State) :
  ChatWindow.played s ⊆ ChatWindow.played (ChatWindow.run evs s).
Proof. apply run_played_mono. Qed.

(** ** The text sent for synthesis *)

Section TrimFacts.

Lemma last_rev (s : jsstring) : last (rev s) = head s.
Proof. destruct s as [|c s]; simpl; [done|]. apply last_snoc. Qed.

Lemma head_rev (s : jsstring) : head (rev s) = last s.
Proof. by rewrite <- (rev_involutive s) at 2; rewrite last_rev. Qed.

Lemma trimStart_split (s : jsstring) :
  ∃ l, s = l ++ trimStart s ∧ Forall (λ c, isWhiteSpace c = true) l.
Proof.
  induction s as [|c s (l & Hs & Hl)]; simpl.
  - by exists [].
  - destruct (isWhiteSpace c) eqn:Hc.
    + exists (c :: l). split; [simpl; congruence | by constructor].
    + by exists [].
Qed.

Lemma trimStart_head (s : jsstring) (c : N) :
  head (trimStart s) = Some c → isWhiteSpace c = false.
Proof.
  induction s as [|d s IH]; simpl; [done|].
  destruct (isWhiteSpace d) eqn:Hd; [done|]. simpl. congruence.
Qed.

Lemma trimStart_id (s : jsstring) :
  (∀ c, head s = Some c → isWhiteSpace c = false) → trimStart s = s.
Proof.
  destruct s as [|c s]; simpl; [done|]. intros H. by rewrite (H c).
Qed.

Lemma trimStart_snoc (s : jsstring) (c : N) :
  isWhiteSpace c = false → trimStart (s ++ [c]) = trimStart s ++ [c].
Proof.
  intros Hc. induction s as [|d s IH]; simpl; [by rewrite Hc|].
  by destruct (isWhiteSpace d).
Qed.


Lemma trimEnd_split (s : jsstring) :
  ∃ l, s = trimEnd s ++ l ∧ Forall (λ c, isWhiteSpace c = true) l.
Proof.
  unfold trimEnd. destruct (trimStart_split (rev s)) as (l & Hs & Hl).
  exists (rev l). split.
  - rewrite <- rev_app_distr, <- Hs. by rewrite rev_involutive.
  - by apply Forall_rev.
Qed.

Lemma trimEnd_cons (s : jsstring) (c : N) :
  isWhiteSpace c = false → trimEnd (c :: s) = c :: trimEnd s.
Proof.
  intros Hc. unfold trimEnd. simpl. rewrite trimStart_snoc by done.
  by rewrite rev_app_distr.
Qed.

Lemma trimEnd_last (s : jsstring) (c : N) :
  last (trimEnd s) = Some c → isWhiteSpace c = false.
Proof.
  unfold trimEnd. rewrite last_rev. apply trimStart_head.
Qed.

Lemma trimEnd_id (s : jsstring) :
  (∀ c, last s = Some c → isWhiteSpace c = false) → trimEnd s = s.
Proof.
  intros H. unfold trimEnd. rewrite trimStart_id; [apply rev_involutive|].
  intros c Hc. apply H. by rewrite <- head_rev.
Qed.


Lemma trim_head (s : jsstring) (c : N) :
  head (trim s) = Some c → isWhiteSpace c = false.
Proof.
  unfold trim. destruct (trimStart s) as [|d u] eqn:Hu; [done|].
  assert (isWhiteSpace d = false) as Hd.
  { apply (trimStart_head s). by rewrite Hu. }
  rewrite trimEnd_cons by done. simpl. congruence.
Qed.

Lemma trim_last (s : jsstring) (c : N) :
  last (trim s) = Some c → isWhiteSpace c = false.
Proof. apply trimEnd_last. Qed.

(** What [trim] returns is the input without a whitespace prefix and a
    whitespace suffix. *)
Lemma trim_split (s : jsstring) :
  ∃ l r, s = l ++ trim s ++ r
         ∧ Forall (λ c, isWhiteSpace c = true) l
         ∧ Forall (λ c, isWhiteSpace c = true) r.
Proof.
  destruct (trimStart_split s) as (l & Hs & Hl).
  destruct (trimEnd_split (trimStart s)) as (r & Hr & Hrw).
  exists l, r. unfold trim. by rewrite <- Hr.
Qed.


Lemma trim_id (s : jsstring) :
  (∀ c, head s = Some c → isWhiteSpace c = false) →
  (∀ c, last s = Some c → isWhiteSpace c = false) →
  trim s = s.
Proof.
  intros Hh Hl. unfold trim. rewrite (trimStart_id s Hh). by apply trimEnd_id.
Qed.

End TrimFacts.

Section Cleaning.

Import TtsText.

Lemma special_not_space (c : N) : isSpecial c = true → isWhiteSpace c = false.
Proof.
  unfold isSpecial. rewrite existsb_exists. intros (x & Hin & Heq).
  apply N.eqb_eq in Heq. subst x. unfold specials in Hin. simpl in Hin.
  repeat (destruct Hin as [<- | Hin]; [reflexivity|]). done.
Qed.

Lemma plain_not_newline (c : N) : plain c → isNewline c = false.
Proof.
  intros [_ Hw]. unfold isNewline. destruct (N.eqb_spec c 10) as [-> | ?]; [|done].
  by specialize (Hw eq_refl).
Qed.

Lemma replaceClass_clean (t : jsstring) :
  Forall (λ c, isSpecial c = false) (replaceClass t).
Proof.
  unfold replaceClass. apply Forall_map. apply Forall_forall. intros c _.
  simpl. by destruct (isSpecial c) eqn:Hc.
Qed.

Lemma collapse_clean (P : N → bool) (b : bool) (v : jsstring) :
  Forall (λ c, isSpecial c = false) v →
  Forall (λ c, isSpecial c = false) (collapseFrom P b v).
Proof.
  intros H. revert b. induction H as [|c v Hc _ IH]; intros b; simpl; [done|].
  destruct (P c); [destruct b|]; repeat constructor; auto.
Qed.

Lemma collapse_plain (b : bool) (v : jsstring) :
  Forall (λ c, isSpecial c = false) v →
  Forall plain (collapseFrom isWhiteSpace b v).
Proof.
  intros H. revert b. induction H as [|c v Hc _ IH]; intros b; simpl; [done|].
  destruct (isWhiteSpace c) eqn:Hw; [destruct b|]; auto.
  - constructor; [|auto]. by split.
  - constructor; [|auto]. split; [done | congruence].
Qed.

Lemma collapse_sparse (b : bool) (v : jsstring) :
  sparse b (collapseFrom isWhiteSpace b v).
Proof.
  revert b. induction v as [|c v IH]; intros b; simpl; [done|].
  destruct (isWhiteSpace c) eqn:Hw; [destruct b|]; simpl; auto.
  destruct (N.eqb_spec c 32) as [-> | ?]; [done | auto].
Qed.

Lemma sparse_weaken (b : bool) (s : jsstring) : sparse b s → sparse false s.
Proof.
  destruct s as [|c s]; simpl; [done|].
  destruct (c =? 32)%N; [|done]. by intros [_ ?].
Qed.

Lemma sparse_app (b : bool) (l r : jsstring) :
  sparse b (l ++ r) → sparse b l ∧ sparse false r.
Proof.
  revert b. induction l as [|c l IH]; intros b; simpl.
  - intros H. split; [done | by eapply sparse_weaken].
  - destruct (c =? 32)%N.
    + intros [-> H]. by destruct (IH true H).
    + intros H. by destruct (IH false H).
Qed.

Lemma sparse_lookup (s : jsstring) :
  sparse false s ↔ ∀ i, s !! i = Some 32%N → s !! S i ≠ Some 32%N.
Proof.
  induction s as [|c s IH]; simpl; [done|].
  destruct (N.eqb_spec c 32) as [-> | Hc].
  - split.
    + intros [_ H] [|i] Hi; simpl.
      * destruct s as [|d s]; [done|]. simpl in *.
        destruct (N.eqb_spec d 32) as [-> | ?]; [by destruct H | congruence].
      * apply IH; [by eapply sparse_weaken | done].
    + intros H. split; [done|].
      assert (sparse false s) as Hs.
      { apply IH. intros i. apply (H (S i)). }
      destruct s as [|d s]; [done|]. simpl in *.
      destruct (N.eqb_spec d 32) as [-> | ?]; [|done].
      by destruct (H 0 eq_refl).
  - rewrite IH. split.
    + intros H [|i]; simpl; [congruence | apply H].
    + intros H i. apply (H (S i)).
Qed.

Lemma replaceClass_id (s : jsstring) :
  Forall (λ c, isSpecial c = false) s → replaceClass s = s.
Proof.
  induction 1 as [|c s Hc _ IH]; [done|].
  unfold replaceClass in *. simpl. by rewrite Hc, IH.
Qed.

Lemma collapse_id_none (P : N → bool) (b : bool) (s : jsstring) :
  Forall (λ c, P c = false) s → collapseFrom P b s = s.
Proof.
  intros H. revert b. induction H as [|c s Hc _ IH]; intros b; simpl; [done|].
  by rewrite Hc, IH.
Qed.

Lemma collapse_id_sparse (b : bool) (s : jsstring) :
  Forall plain s → sparse b s → collapseFrom isWhiteSpace b s = s.
Proof.
  intros H. revert b. induction H as [|c s [_ Hc] _ IH]; intros b; simpl; [done|].
  destruct (isWhiteSpace c) eqn:Hw.
  - rewrite (Hc eq_refl). simpl. intros [-> Hs]. by rewrite IH.
  - destruct (N.eqb_spec c 32) as [-> | ?]; [done|]. intros Hs. by rewrite IH.
Qed.



Lemma cleaned_form (messageText : jsstring) :
  TtsText.speakable (TtsText.cleanText messageText).
Proof.
  unfold TtsText.cleanText, TtsText.replaceRuns.
  set (u := TtsText.collapseFrom isWhiteSpace false _).
  assert (Forall TtsText.plain u) as Hplain.
  { apply collapse_plain, collapse_clean, replaceClass_clean. }
  pose proof (collapse_sparse false _ : TtsText.sparse false u) as Hsparse.
  destruct (trim_split u) as (l & r & Hu & _ & _).
  rewrite Hu in Hplain, Hsparse.
  apply Forall_app in Hplain as [_ [Hplain _]%Forall_app].
  apply sparse_app in Hsparse as [_ [Hsparse _]%sparse_app].
  split; [done|]. split; [by apply sparse_lookup|]. split.
  - intros Hh. by apply trim_head in Hh.
  - intros Hl. by apply trim_last in Hl.
Qed.

End Cleaning.

(** X2.  Whatever the message text, the text sent for synthesis holds none
    of the stripped markup and punctuation characters, no whitespace other
    than the plain space, no two spaces in a row and no space at either
    end. *)
Theorem cleanText_speakable (messageText : jsstring) :
  Forall (λ c, TtsText.isSpecial c = false
               ∧ (isWhiteSpace c = true → c = 32%N))
    (TtsText.cleanText messageText)
  ∧ (∀ i, TtsText.cleanText messageText !! i = Some 32%N
          → TtsText.cleanText messageText !! S i ≠ Some 32%N)
  ∧ head (TtsText.cleanText messageText) ≠ Some 32%N
  ∧ last (TtsText.cleanText messageText) ≠ Some 32%N.
Proof. apply cleaned_form. Qed.

(** X3.  The texts the cleaning leaves unchanged are exactly the texts
    already in that form, so cleaning twice is the same as cleaning once. *)
Theorem cleanText_fixed_points (s messageText : jsstring) :
  (TtsText.cleanText s = s ↔ TtsText.speakable s)
  ∧ TtsText.cleanText (TtsText.cleanText messageText)
    = TtsText.cleanText messageText.
Proof.
  assert (∀ x, TtsText.speakable x → TtsText.cleanText x = x) as Hfix.
  { intros x (Hplain & Hsp & Hh & Hl).
    unfold TtsText.cleanText, TtsText.replaceRuns.
    rewrite replaceClass_id
      by (eapply Forall_impl; [apply Hplain | by intros c [? _]]).
    rewrite (collapse_id_none TtsText.isNewline)
      by (eapply Forall_impl; [apply Hplain | apply plain_not_newline]).
    rewrite collapse_id_sparse by (by try apply sparse_lookup).
    assert (∀ c, c ∈ x → c ≠ 32%N → isWhiteSpace c = false) as Hns.
    { intros c Hc Hne. pose proof (proj1 (Forall_forall _ _) Hplain c Hc) as [_ Hw].
      destruct (isWhiteSpace c); [by destruct Hne; apply Hw | done]. }
    apply trim_id.
    - intros c Hc. apply Hns; [by apply head_Some_elem_of | congruence].
    - intros c Hc. apply Hns; [by apply last_Some_elem_of | congruence]. }
  split; [split|].
  - intros <-. apply cleaned_form.
  - apply Hfix.
  - apply Hfix, cleaned_form.
Qed.


Example cleanText_markdown :
  TtsText.cleanText (lit "**Hello**,  `world`!" ++ [10; 10]%N
                     ++ lit " - see [docs](http://x.y/z)  ")
  = lit "Hello , world see docs http x.y z".
Proof. reflexivity. Qed.

Example cleanText_only_markup : TtsText.cleanText (lit " *** --- ### ") = [].
Proof. reflexivity. Qed.

(** ** Channel names *)

Section Decimals.

Import AgoraService.

Lemma usize_nb_digits (d : Decimal.uint) :
  DecimalPos.Unsigned.usize d = N.of_nat (Decimal.nb_digits d).
Proof.
  induction d; simpl; [done|..]; rewrite IHd; lia.
Qed.

Lemma leading_digit_bound (d d' : Decimal.uint) :
  (1 ≤ DecimalPos.Unsigned.of_lu d')%N →
  (10 ^ N.of_nat (Decimal.nb_digits d)
   ≤ DecimalPos.Unsigned.of_lu (Decimal.revapp d d'))%N.
Proof.
  intros Hd'. rewrite DecimalPos.Unsigned.of_lu_revapp, usize_nb_digits.
  assert (0 < 10 ^ N.of_nat (Decimal.nb_digits d))%N
    by (apply N.neq_0_lt_0, N.pow_nonzero; lia).
  nia.
Qed.

(** A positive number below the k-th power of ten is written with at most
    k digits. *)
Lemma to_uint_digits (p : positive) (k : nat) :
  (Npos p < 10 ^ N.of_nat k)%N →
  Decimal.nb_digits (Pos.to_uint p) ≤ k.
Proof.
  intros Hlt.
  pose proof (DecimalPos.Unsigned.of_to p) as Hval.
  pose proof (DecimalPos.Unsigned.to_of (Pos.to_uint p)) as Hnorm.
  rewrite Hval in Hnorm. simpl in Hnorm.
  rewrite DecimalPos.Unsigned.of_uint_alt in Hval.
  pose proof (DecimalPos.Unsigned.to_uint_nonzero p) as Hnz.
  destruct (Pos.to_uint p) as [|d|d|d|d|d|d|d|d|d|d] eqn:Hd.
  1: by destruct (DecimalPos.Unsigned.to_uint_nonnil p).
  1: { exfalso. rewrite DecimalFacts.unorm_D0 in Hnorm.
       destruct d as [|d|d|d|d|d|d|d|d|d|d]; [done|..];
         match type of Hnorm with
         | ?x = Decimal.unorm ?u =>
             assert (u ≠ Decimal.Nil) as Hu by done;
             pose proof (DecimalFacts.nb_digits_unorm u Hu) as Hle;
             rewrite <- Hnorm in Hle; simpl in Hle; lia
         end. }
  all: unfold Decimal.rev in Hval; simpl in Hval;
    match type of Hval with
    | DecimalPos.Unsigned.of_lu (Decimal.revapp ?u ?v) = _ =>
        pose proof (leading_digit_bound u v) as Hb
    end;
    rewrite Hval in Hb; simpl in Hb; specialize (Hb ltac:(lia));
    assert (10 ^ N.of_nat (Decimal.nb_digits d) < 10 ^ N.of_nat k)%N as Hpow by lia;
    apply N.pow_lt_mono_r_iff in Hpow; [simpl; lia | lia].
Qed.

Lemma string_of_uint_length (d : Decimal.uint) :
  length (lit (DecimalString.NilEmpty.string_of_uint d)) = Decimal.nb_digits d.
Proof.
  induction d; simpl; [done|..]; unfold lit in *; simpl; by rewrite IHd.
Qed.

Lemma string_of_uint_digits (d : Decimal.uint) :
  Forall (λ c, isDigit c = true) (lit (DecimalString.NilEmpty.string_of_uint d)).
Proof.
  induction d; simpl; [constructor|..]; unfold lit in *; simpl; by constructor.
Qed.

Lemma decimal_digits (n : N) : Forall (λ c, isDigit c = true) (decimal n).
Proof.
  unfold decimal, DecimalString.NilZero.string_of_uint.
  destruct (N.to_uint n); try apply string_of_uint_digits.
  by repeat constructor.
Qed.

Lemma decimal_length (n : N) (k : nat) :
  (n < 10 ^ N.of_nat k)%N → 1 ≤ length (decimal n) ≤ Nat.max 1 k.
Proof.
  intros Hlt. unfold decimal. destruct n as [|p]; [simpl; lia|].
  simpl. pose proof (to_uint_digits p k Hlt) as Hk.
  pose proof (DecimalPos.Unsigned.to_uint_nonnil p) as Hnn.
  unfold DecimalString.NilZero.string_of_uint.
  destruct (Pos.to_uint p) eqn:Hd; [done|..];
    rewrite string_of_uint_length; simpl in *; lia.
Qed.

Lemma digit_is_channel (c : N) : isDigit c = true → isChannelChar c = true.
Proof. unfold isChannelChar. intros ->. by rewrite !orb_true_r. Qed.

Lemma base36_is_channel (c : N) : isBase36 c = true → isChannelChar c = true.
Proof.
  unfold isBase36, isChannelChar. intros [-> | ->]%orb_true_iff;
    by rewrite ?orb_true_r.
Qed.

Lemma lit_channel (s : string) :
  forallb isChannelChar (lit s) = true →
  Forall (λ c, isChannelChar c = true) (lit s).
Proof.
  intros H. apply Forall_forall. intros c Hc.
  rewrite forallb_forall in H. apply H. by apply list_elem_of_In.
Qed.

(** When a generated name is valid. *)
Lemma generated_valid (sessionId : option jsstring) (timestamp : N)
    (random : jsstring) :
  validateChannelName (generateChannelName sessionId timestamp random) = true
  ↔ Forall (λ c, isChannelChar c = true) (sessionOf sessionId)
    ∧ Forall (λ c, isChannelChar c = true) random
    ∧ length (sessionOf sessionId) + length (decimal timestamp)
      + length random ≤ 54.
Proof.
  unfold validateChannelName, generateChannelName.
  rewrite !andb_true_iff, !Nat.leb_le, forallb_forall.
  rewrite !length_app. change (length (lit "support_")) with 8.
  change (length (lit "_")) with 1.
  split.
  - intros [[_ Hlen] Hall]. split; [|split; [|lia]].
    + apply Forall_forall. intros c Hc. apply Hall, list_elem_of_In.
      rewrite !elem_of_app. auto.
    + apply Forall_forall. intros c Hc. apply Hall, list_elem_of_In.
      rewrite !elem_of_app. auto 10.
  - intros (Hs & Hr & Hlen). split; [lia|].
    intros c Hc. apply list_elem_of_In in Hc.
    rewrite !elem_of_app in Hc.
    destruct Hc as [Hc | [Hc | [Hc | [Hc | [Hc | Hc]]]]].
    + revert c Hc. apply Forall_forall, lit_channel. reflexivity.
    + by apply (proj1 (Forall_forall _ _) Hs).
    + revert c Hc. apply Forall_forall, lit_channel. reflexivity.
    + apply digit_is_channel. by apply (proj1 (Forall_forall _ _) (decimal_digits timestamp)).
    + revert c Hc. apply Forall_forall, lit_channel. reflexivity.
    + by apply (proj1 (Forall_forall _ _) Hr).
Qed.

End Decimals.

(** X5.  A generated channel name passes [validateChannelName] exactly when
    the session part and the random part consist of letters, digits,
    underscores and hyphens and the three variable parts together are at
    most 54 characters long (the fixed parts take the other ten of the 64
    allowed). *)
Theorem generated_name_valid_iff
    (sessionId : option jsstring) (timestamp : N) (random : jsstring) :
  AgoraService.validateChannelName
    (AgoraService.generateChannelName sessionId timestamp random) = true
  ↔ Forall (λ c, AgoraService.isChannelChar c = true)
      (AgoraService.sessionOf sessionId)
    ∧ Forall (λ c, AgoraService.isChannelChar c = true) random
    ∧ length (AgoraService.sessionOf sessionId) + length (decimal timestamp)
      + length random ≤ 54.
Proof. apply generated_valid. Qed.

(** X6.  The channel name that starting a screen share asks a token for is
    always a valid one: with clock readings below ten to the twentieth and
    up to six base-36 digits from the random source, the name passes
    [validateChannelName]. *)
Theorem session_channel_valid (now timestamp : N) (random : jsstring) :
  (now < 10 ^ 20)%N → (timestamp < 10 ^ 20)%N →
  Forall (λ c, AgoraService.isBase36 c = true) random →
  length random ≤ 6 →
  AgoraService.validateChannelName
    (AgoraService.sessionChannel now timestamp random) = true.
Proof.
  intros Hnow Hts Hrnd Hlen. unfold AgoraService.sessionChannel.
  apply generated_valid.
  pose proof (decimal_length now 20 Hnow) as Hn.
  pose proof (decimal_length timestamp 20 Hts) as Ht.
  change (AgoraService.sessionOf (Some (lit "session_" ++ decimal now)))
    with (lit "session_" ++ decimal now).
  split; [|split].
  - apply Forall_app. split; [by apply lit_channel|].
    eapply Forall_impl; [apply decimal_digits | apply digit_is_channel].
  - eapply Forall_impl; [apply Hrnd | apply base36_is_channel].
  - rewrite length_app. change (length (lit "session_")) with 8. lia.
Qed.

(** X6 for a clock reading of 2023 and six random digits. *)
Lemma session_channel_valid_witness :
  AgoraService.validateChannelName
    (AgoraService.sessionChannel 1700000000000 1700000000001 (lit "k3x9ab"))
  = true.
Proof.
  apply session_channel_valid.
  - reflexivity.
  - reflexivity.
  - repeat constructor.
  - simpl. lia.
Defined.

Example channel_name_shape :
  AgoraService.sessionChannel 1700000000000 1700000000001 (lit "k3x9ab")
  = lit "support_session_1700000000000_1700000000001_k3x9ab".
Proof. reflexivity. Qed.

Example channel_name_with_space_invalid :
  AgoraService.validateChannelName
    (AgoraService.generateChannelName (Some (lit "my session")) 5 (lit "abc"))
  = false.
Proof. reflexivity. Qed.

(** ** Further properties of the chat window *)

(** X7.  The message [playNextMessage] selects is the first entry of the
    list, in list order, that the assistant sent and whose id is not in the
    set of played ids: everything before it was sent by the user or is
    played. *)
Theorem next_is_first_unplayed
    (ms : list Message) (pl : gset MsgId) (m : Message) :
  ChatWindow.nextMessage ms pl = Some m ↔
  ∃ l1 l2, ms = l1 ++ m :: l2
           ∧ sender m = ai ∧ (id m ∉ pl)
           ∧ Forall (λ x, sender x ≠ ai ∨ id x ∈ pl) l1.
Proof. apply nextMessage_spec. Qed.

(** X8.  In every state the chat window can reach, a call of
    [playAIMessageTTS] is awaited by a closure that captured autoplay
    switched on, so the test made after the await always passes and the
    continuation is a plain call of that closure's [playNextMessage]. *)
Theorem awaiting_closure_saw_autoplay_on
    (t0 : Z) (evs : list ChatWindow.Event) (i : nat) (t : ChatWindow.Task) :
  ChatWindow.tasks (ChatWindow.run evs (ChatWindow.init t0)) !! i = Some t →
  ChatWindow.isAutoplayActive (ChatWindow.t_closure t) = true
  ∧ ∀ s, ChatWindow.resume (ChatWindow.t_closure t) s
         = ChatWindow.playNextMessage (ChatWindow.t_closure t) s.
Proof.
  intros Hi. destruct (guard_after_await_always_passes t0 evs i t Hi) as [Hr Ha].
  split; [done|]. intros s. by rewrite Hr.
Qed.

(** X8 on the sample component, after autoplay was switched on and then
    off again. *)
Lemma awaiting_closure_saw_autoplay_on_witness :
  ∃ t, ChatWindow.tasks
         (ChatWindow.run
            [ChatWindow.AiMessageEvent (Sample.detail "a" "first answer") 1;
             ChatWindow.Render; ChatWindow.ClickAutoplay; ChatWindow.Render;
             ChatWindow.ClickAutoplay; ChatWindow.Render]
            (ChatWindow.init 0)) !! 0 = Some t
       ∧ ChatWindow.isAutoplayActive (ChatWindow.t_closure t) = true.
Proof.
  eexists. split; [reflexivity|].
  refine (proj1 (awaiting_closure_saw_autoplay_on 0
            [ChatWindow.AiMessageEvent (Sample.detail "a" "first answer") 1;
             ChatWindow.Render; ChatWindow.ClickAutoplay; ChatWindow.Render;
             ChatWindow.ClickAutoplay; ChatWindow.Render] 0 _ _)).
  reflexivity.
Defined.

Section Messages.

Import ChatWindow.

Lemma playNextMessage_messages (c : Hooks) (s : State) :
  messages (hooks (playNextMessage c s)) = messages (hooks s).
Proof.
  unfold playNextMessage. destruct (isAutoplayActive c); [|done].
  by destruct (nextMessage _ _).
Qed.

Lemma resume_messages (c : Hooks) (s : State) :
  messages (hooks (resume c s)) = messages (hooks s).
Proof.
  unfold resume. destruct (isAutoplayActive c); [|done].
  apply playNextMessage_messages.
Qed.

Lemma grows_by (ms ms' k : list Message) :
  ms' = ms ++ k → length k ≤ 1 →
  ∃ k, ms' = ms ++ k ∧ length k ≤ 1.
Proof. eauto. Qed.

Lemma step_messages (s : State) (e : Event) :
  match e with
  | LoadConversation ws => messages (hooks (step s e)) = map loadedMessage ws
  | _ => ∃ k, messages (hooks (step s e)) = messages (hooks s) ++ k
              ∧ length k ≤ 1
  end.
Proof.
  destruct e; simpl.
  - apply (grows_by _ _ []); [|simpl; lia]. rewrite app_nil_r.
    unfold render. destruct (depsChanged _ _); [|done].
    unfold autoplayEffect. destruct (_ && _); [|done].
    destruct (existsb _ _); [|done]. by rewrite playNextMessage_messages.
  - apply (grows_by _ _ []); [|simpl; lia]. rewrite app_nil_r.
    unfold toggleAutoplay. by destruct (negb _).
  - apply (grows_by _ _ []); [|simpl; lia]. by rewrite app_nil_r.
  - unfold sendMessage. destruct (truthy _).
    + by eapply grows_by.
    + apply (grows_by _ _ []); [|simpl; lia]. by rewrite app_nil_r.
  - unfold onTranscript. destruct (_ && _).
    + by eapply grows_by.
    + apply (grows_by _ _ []); [|simpl; lia]. by rewrite app_nil_r.
  - unfold chatSettled, requestScreenShareIf.
    destruct r as [d | ? d]; destruct (ChatService.message d);
      try destruct (ChatService.should_request_screen_share d);
      by eapply grows_by.
  - unfold aiMessageHandler. destruct detail as [d|].
    + destruct (ChatService.message d); [by eapply grows_by|].
      apply (grows_by _ _ []); [|simpl; lia]. by rewrite app_nil_r.
    + apply (grows_by _ _ []); [|simpl; lia]. by rewrite app_nil_r.
  - done.
  - apply (grows_by _ _ []); [|simpl; lia]. rewrite app_nil_r.
    unfold fetchSettled. destruct (tasks s !! i) as [t|]; [|done].
    destruct (t_stage t), o; try done; by rewrite resume_messages.
  - apply (grows_by _ _ []); [|simpl; lia]. rewrite app_nil_r.
    unfold audioSettled. destruct (tasks s !! i) as [t|]; [|done].
    destruct (t_stage t); try done. by rewrite resume_messages.
Qed.

End Messages.

(** X9.  The message list is append-only: loading a conversation replaces
    it by the loaded entries, and every other event keeps all entries in
    place and adds at most one at the end. *)
Theorem messages_append_only (s : ChatWindow.State) (e : ChatWindow.Event) :
  match e with
  | ChatWindow.LoadConversation ws =>
      ChatWindow.messages (ChatWindow.hooks (ChatWindow.step s e))
      = map ChatWindow.loadedMessage ws
  | _ =>
      ∃ k, ChatWindow.messages (ChatWindow.hooks (ChatWindow.step s e))
           = ChatWindow.messages (ChatWindow.hooks s) ++ k
           ∧ length k ≤ 1
  end.
Proof. apply step_messages. Qed.

(** X10.  However the awaited chat call settles (a response, a response
    without a message object, a fallback, a fallback without one), exactly
    one message is appended, it is attributed to the assistant, and the
    loading flag is lowered. *)
Theorem chat_call_always_answers
    (r : ChatService.SendResult) (now : N) (s : ChatWindow.State) :
  ∃ m, ChatWindow.messages (ChatWindow.hooks (ChatWindow.chatSettled r now s))
       = ChatWindow.messages (ChatWindow.hooks s) ++ [m]
       ∧ sender m = ai
       ∧ ChatWindow.isLoading (ChatWindow.hooks (ChatWindow.chatSettled r now s))
         = false.
Proof.
  unfold ChatWindow.chatSettled, ChatWindow.requestScreenShareIf.
  destruct r as [d | ? d]; destruct (ChatService.message d);
    try destruct (ChatService.should_request_screen_share d);
    by eexists.
Qed.

(** X13.  [sendMessage] on a draft that is empty or only whitespace does
    nothing at all; on any other draft it appends the draft, untrimmed, as
    a user message, empties the input, raises the loading flag, clears the
    error and posts the draft to the chat service. *)
Theorem sendMessage_blank_or_posted (now : N) (s : ChatWindow.State) :
  let txt := ChatWindow.inputMessage (ChatWindow.view s) in
  let s' := ChatWindow.sendMessage now s in
  (trim txt = [] ∧ s' = s)
  ∨ (trim txt ≠ []
     ∧ ChatWindow.messages (ChatWindow.hooks s')
       = ChatWindow.messages (ChatWindow.hooks s)
         ++ [ChatWindow.userMessage txt now]
     ∧ ChatWindow.inputMessage (ChatWindow.hooks s') = []
     ∧ ChatWindow.isLoading (ChatWindow.hooks s') = true
     ∧ ChatWindow.error (ChatWindow.hooks s') = None
     ∧ ChatWindow.log s' = ChatWindow.log s ++ [ChatWindow.ChatPost txt]).
Proof.
  cbv zeta. unfold ChatWindow.sendMessage.
  destruct (trim (ChatWindow.inputMessage (ChatWindow.view s))) eqn:Ht; simpl.
  - by left.
  - right. by repeat split.
Qed.

(** X14.  A callback of a playback fires: [onended], [onerror] or the
    rejection of [play()], which are independent, so that more than one
    can fire for the same audio.  Whichever it is, the id of the message
    joins the set of played ids.  The first to fire resolves the promise:
    the closure that awaited it asks for the first message of its own list
    that is unplayed by then, if it saw autoplay on and there is one.  A
    later one wakes nobody: nothing is asked for and no call changes, but
    the playing flag is lowered all the same, whatever is in flight. *)
Theorem playback_end_marks_and_advances
    (s : ChatWindow.State) (i : nat) (t : ChatWindow.Task)
    (o : ChatWindow.AudioOutcome) :
  ChatWindow.tasks s !! i = Some t →
  ChatWindow.t_stage t = ChatWindow.Sounding
  ∨ ChatWindow.t_stage t = ChatWindow.Returned →
  let pl := {[ id (ChatWindow.t_message t) ]} ∪ ChatWindow.played s in
  let s' := ChatWindow.audioSettled i o s in
  ChatWindow.played s' = pl
  ∧ match ChatWindow.t_stage t with
    | ChatWindow.Sounding =>
        ChatWindow.log s'
        = ChatWindow.log s
          ++ match ChatWindow.nextMessage
                     (ChatWindow.messages (ChatWindow.t_closure t)) pl with
             | Some m =>
                 if ChatWindow.isAutoplayActive (ChatWindow.t_closure t)
                 then [ChatWindow.TtsRequest m] else []
             | None => []
             end
    | _ =>
        ChatWindow.log s' = ChatWindow.log s
        ∧ ChatWindow.tasks s' = ChatWindow.tasks s
        ∧ ChatWindow.hooks s'
          = ChatWindow.setIsPlayingAudio false (ChatWindow.hooks s)
    end.
Proof.
  intros Hi Hst. cbv zeta. unfold ChatWindow.audioSettled. rewrite Hi.
  destruct Hst as [-> | ->].
  - unfold ChatWindow.resume, ChatWindow.playNextMessage.
    destruct (ChatWindow.isAutoplayActive (ChatWindow.t_closure t)); simpl.
    + destruct (ChatWindow.nextMessage _ _); simpl; by rewrite ?app_nil_r.
    + destruct (ChatWindow.nextMessage _ _); by rewrite app_nil_r.
  - done.
Qed.

(** X14 on the sample component with two answers.  The audio of the first
    answer fails to load: [onerror] fires, the second answer is asked for,
    and then the rejection of [play()] fires too.  It lowers the playing
    flag while the request for the second answer is in flight. *)
Lemma playback_end_marks_and_advances_witness :
  let s := ChatWindow.run
             [ChatWindow.ClickAutoplay; ChatWindow.Render; ChatWindow.Render;
              ChatWindow.FetchSettled 0 ChatWindow.BlobReady; ChatWindow.Render;
              ChatWindow.AudioSettled 0 ChatWindow.AudioErrored;
              ChatWindow.Render] Sample.two in
  let t := ChatWindow.mkTask
             (ChatWindow.view
                (ChatWindow.run [ChatWindow.ClickAutoplay; ChatWindow.Render]
                   Sample.two))
             Sample.A ChatWindow.Returned in
  ChatWindow.tasks s !! 0 = Some t
  ∧ ChatWindow.isPlayingAudio (ChatWindow.hooks s) = true
  ∧ ChatWindow.hooks (ChatWindow.audioSettled 0 ChatWindow.PlayRejected s)
    = ChatWindow.setIsPlayingAudio false (ChatWindow.hooks s).
Proof.
  cbv zeta. split; [reflexivity|]. split; [reflexivity|].
  refine (proj2 (proj2 (proj2 (playback_end_marks_and_advances
            (ChatWindow.run
               [ChatWindow.ClickAutoplay; ChatWindow.Render; ChatWindow.Render;
                ChatWindow.FetchSettled 0 ChatWindow.BlobReady;
                ChatWindow.Render;
                ChatWindow.AudioSettled 0 ChatWindow.AudioErrored;
                ChatWindow.Render] Sample.two)
            0
            (ChatWindow.mkTask
               (ChatWindow.view
                  (ChatWindow.run [ChatWindow.ClickAutoplay; ChatWindow.Render]
                     Sample.two))
               Sample.A ChatWindow.Returned)
            ChatWindow.PlayRejected _ _)))).
  - reflexivity.
  - right. reflexivity.
Defined.

(** What the second callback leads to: at the next render the effect sees
    the flag lowered and asks for the second answer again, while the first
    request for it is still in flight. *)
Example late_callback_requests_again :
  Spec.requested
    (ChatWindow.log
       (ChatWindow.run
          [ChatWindow.ClickAutoplay; ChatWindow.Render; ChatWindow.Render;
           ChatWindow.FetchSettled 0 ChatWindow.BlobReady; ChatWindow.Render;
           ChatWindow.AudioSettled 0 ChatWindow.AudioErrored; ChatWindow.Render;
           ChatWindow.AudioSettled 0 ChatWindow.PlayRejected; ChatWindow.Render]
          Sample.two))
  = [Sample.A; Sample.B; Sample.B].
Proof. vm_compute. reflexivity. Qed.

(** A failed synthesis makes no audio: no callback of it can fire, and its
    message stays unplayed. *)
Example no_callback_after_catch :
  ChatWindow.played
    (ChatWindow.run
       [ChatWindow.ClickAutoplay; ChatWindow.Render; ChatWindow.Render;
        ChatWindow.FetchSettled 0 ChatWindow.ResponseNotOk;
        ChatWindow.AudioSettled 0 ChatWindow.AudioEnded] Sample.two)
  = ChatWindow.played Sample.two.
Proof. vm_compute. reflexivity. Qed.

Section Silence.

Import ChatWindow Extra.

Lemma requested_snoc (l : list Effect) (e : Effect) :
  Spec.requested [e] = [] → Spec.requested (l ++ [e]) = Spec.requested l.
Proof.
  intros He. unfold Spec.requested in *. by rewrite omap_app, He, app_nil_r.
Qed.

Lemma sounded_snoc (l : list Effect) (e : Effect) :
  Spec.sounded [e] = [] → Spec.sounded (l ++ [e]) = Spec.sounded l.
Proof.
  intros He. unfold Spec.sounded in *. by rewrite omap_app, He, app_nil_r.
Qed.

Lemma silent_update (f : Hooks → Hooks) (s : State) :
  isAutoplayActive (f (hooks s)) = false → silent s → silent (update f s).
Proof. intros Hf (_ & Hv & Ht & Hr & Hs). by repeat split. Qed.

Lemma silent_emit (e : Effect) (s : State) :
  Spec.requested [e] = [] → Spec.sounded [e] = [] →
  silent s → silent (emit e s).
Proof.
  intros Hr Hs (Ha & Hv & Ht & Hrq & Hsd). repeat split; try done; simpl.
  - by rewrite requested_snoc.
  - by rewrite sounded_snoc.
Qed.

Lemma silent_step (s : State) (e : Event) :
  isToggle e = false → silent s → silent (step s e).
Proof.
  intros He Hs. pose proof Hs as (Ha & Hv & Ht & Hrq & Hsd).
  destruct e; simpl in He |- *; [..|unfold fetchSettled; by rewrite Ht
                                  |unfold audioSettled; by rewrite Ht].
  - unfold render. destruct (depsChanged _ _).
    + unfold autoplayEffect. rewrite Ha. simpl. by repeat split.
    + by repeat split.
  - done.
  - by apply silent_update.
  - unfold sendMessage. destruct (truthy _); [|done].
    apply silent_emit; [done | done|]. by apply silent_update.
  - unfold onTranscript. destruct (_ && _).
    + apply silent_emit; [done | done|]. by apply silent_update.
    + by apply silent_update.
  - unfold chatSettled, requestScreenShareIf.
    destruct r as [d | ? d]; destruct (ChatService.message d);
      try destruct (ChatService.should_request_screen_share d);
      (apply silent_update; [done|]);
      try (apply silent_emit; [done | done|]);
      by apply silent_update.
  - unfold aiMessageHandler. destruct detail as [d|]; [|done].
    destruct (ChatService.message d); [|done]. by apply silent_update.
  - by apply silent_update.
Qed.

Lemma silent_run (evs : list Event) (s : State) :
  existsb isToggle evs = false → silent s → silent (run evs s).
Proof.
  revert s. induction evs as [|e evs IH]; intros s He Hs; simpl in *; [done|].
  apply orb_false_iff in He as [He Hevs]. by apply IH, silent_step.
Qed.

Lemma init_form (t0 : Z) :
  init t0 = mkState (hooks0 t0) (hooks0 t0) ({[ IdNum 1 ]} ∪ ∅) [] [].
Proof. reflexivity. Qed.

End Silence.

(** X11.  Autoplay speaks only when asked to: as long as the autoplay
    button is never clicked, whatever else happens (messages sent and
    received, transcripts, loaded conversations, renders), no synthesis is
    requested and nothing is played. *)
Theorem no_narration_without_toggle (t0 : Z) (evs : list ChatWindow.Event) :
  existsb Extra.isToggle evs = false →
  Spec.requested (ChatWindow.log (ChatWindow.run evs (ChatWindow.init t0))) = []
  ∧ Spec.sounded (ChatWindow.log (ChatWindow.run evs (ChatWindow.init t0))) = [].
Proof.
  intros He. eapply proj2, proj2, proj2, (silent_run evs); [done|].
  rewrite init_form. by repeat split.
Qed.

(** X11 for a conversation of three arrivals. *)
Lemma no_narration_without_toggle_witness :
  Spec.requested (ChatWindow.log Sample.three) = [].
Proof.
  refine (proj1 (no_narration_without_toggle 0
            [ChatWindow.AiMessageEvent (Sample.detail "a" "first answer") 1;
             ChatWindow.Transcript (lit "a question of mine") 2;
             ChatWindow.AiMessageEvent (Sample.detail "b" "second answer") 3;
             ChatWindow.Render] _)).
  reflexivity.
Defined.

(** X12.  Autoplay switched on with nothing to read stays idle, and the
    next assistant message that arrives is sent for synthesis at the
    following render, without a second click: the effect depends on the
    message list.  The arriving message must not carry the greeting's
    id. *)
Theorem arrival_wakes_idle_autoplay
    (t0 : Z) (w : ChatService.WireMessage) (cid : option jsstring)
    (b : bool) (q : Q) (now : N) :
  ChatWindow.idOr (ChatService.w_id w) now ≠ IdNum 1 →
  let d := ChatService.mkChatData (Some w) cid b q in
  let s1 := ChatWindow.run [ChatWindow.ClickAutoplay; ChatWindow.Render]
              (ChatWindow.init t0) in
  let s2 := ChatWindow.run
              [ChatWindow.AiMessageEvent (Some d) now; ChatWindow.Render] s1 in
  ChatWindow.log s1 = []
  ∧ ChatWindow.isPlayingAudio (ChatWindow.hooks s1) = false
  ∧ ChatWindow.log s2
    = [ChatWindow.TtsRequest (ChatWindow.aiMessageOfEvent w now)]
  ∧ ChatWindow.isPlayingAudio (ChatWindow.hooks s2) = true.
Proof.
  intros Hid. cbv zeta.
  set (m := ChatWindow.aiMessageOfEvent w now).
  assert (ChatWindow.nextMessage [ChatWindow.greeting t0; m] ({[ IdNum 1 ]} ∪ ∅)
          = Some m) as Hsel.
  { apply nextMessage_spec. exists [ChatWindow.greeting t0], [].
    split; [done|]. split; [done|]. split.
    - simpl. intros [?%elem_of_singleton | ?%elem_of_empty]%elem_of_union; done.
    - constructor; [|constructor]. right. simpl.
      apply elem_of_union. left. by apply elem_of_singleton. }
  pose proof (hasUnplayed_next _ _ _ Hsel) as Hhas.
  assert (ChatWindow.run [ChatWindow.ClickAutoplay; ChatWindow.Render]
            (ChatWindow.init t0)
          = ChatWindow.mkState
              (ChatWindow.setIsAutoplayActive true (ChatWindow.hooks0 t0))
              (ChatWindow.setIsAutoplayActive true (ChatWindow.hooks0 t0))
              ({[ IdNum 1 ]} ∪ ∅) [] []) as Hidle.
  { rewrite init_form. by vm_compute. }
  rewrite Hidle. split; [done|]. split; [done|].
  next. unfold ChatWindow.aiMessageHandler. cbn [ChatService.message].
  fold m. unfold ChatWindow.hooks0, ChatWindow.append. cells. cbn [app].
  next. unfold ChatWindow.render. cells.
  rewrite Nat.eqb_sym. cbn [Nat.eqb negb orb andb].
  unfold ChatWindow.autoplayEffect. cells. rewrite Hhas.
  unfold ChatWindow.playNextMessage. cells. rewrite Hsel. cells.
  done.
Qed.

(** X12 for the first answer of the sample. *)
Lemma arrival_wakes_idle_autoplay_witness :
  ChatWindow.log
    (ChatWindow.run
       [ChatWindow.AiMessageEvent (Sample.detail "a" "first answer") 1;
        ChatWindow.Render]
       (ChatWindow.run [ChatWindow.ClickAutoplay; ChatWindow.Render]
          (ChatWindow.init 0)))
  = [ChatWindow.TtsRequest Sample.A].
Proof.
  refine (proj1 (proj2 (proj2 (arrival_wakes_idle_autoplay 0
            (Sample.wire "a" "first answer") None false 0 1 _)))).
  discriminate.
Defined.

(** ** The document forms *)

Section DocForms.

Import DocForm DocRules.

Variable v : Variant.

Lemma truthy_nil (s : jsstring) : truthy s = false ↔ s = [].
Proof. by destruct s. Qed.

Lemma awaited_insert (l : list Request) (i : nat) :
  l !! i = Some Awaiting →
  S (length (filter (λ r, r = Awaiting) (<[ i := Settled ]> l)))
  = length (filter (λ r, r = Awaiting) l).
Proof.
  revert i. induction l as [|x l IH]; intros i Hi; [done|].
  destruct i as [|i]; simpl in *.
  - injection Hi as ->. rewrite filter_cons_False by done.
    by rewrite filter_cons_True by done.
  - specialize (IH i Hi). rewrite !filter_cons.
    case_decide; simpl; lia.
Qed.

Lemma inStep_step (s : State) (e : Event) :
  inStep s → inStep (step v s e).
Proof.
  unfold inStep, awaited. intros Hs. destruct e; simpl; try done.
  - destruct (loading (cells s)) eqn:Hl; [by rewrite Hl|].
    unfold submit. destruct (negb _); [by simpl; rewrite Hl|].
    destruct (_ <? _)%N; [by simpl; rewrite Hl|]. simpl.
    rewrite filter_app, length_app, Hs. by rewrite filter_cons_True.
  - unfold settled. destruct (requests s !! i) as [[|]|] eqn:Hi; try done.
    pose proof (awaited_insert _ i Hi) as Hins.
    assert (length (filter (λ r, r = Awaiting) (<[ i := Settled ]> (requests s))) = 0)
      as Hz by (destruct (loading (cells s)); lia).
    destruct o as [err | ok body]; simpl; [done|].
    destruct (ok && _); [|done]. by destruct (returnsHome v).
Qed.

Lemma inStep_run (evs : list Event) (s : State) :
  inStep s → inStep (run v evs s).
Proof.
  revert s. induction evs as [|e evs IH]; intros s Hs; simpl; [done|].
  by apply IH, inStep_step.
Qed.

Lemma postable_step (s : State) (e : Event) :
  Forall (postable v) (out s) → Forall (postable v) (out (step v s e)).
Proof.
  intros Hs. destruct e; simpl; try done.
  - destruct (loading (cells s)); [done|]. unfold submit.
    destruct (truthy (trim (content (cells s)))) eqn:Ht; simpl; [|done].
    destruct (N.ltb_spec (maxChars v) (N.of_nat (length (content (cells s)))))
      as [Hlt | Hle]; simpl; [done|].
    apply Forall_app. split; [done|]. constructor; [|done]. simpl.
    split; [|split; [done|]].
    + intros Hnil. by rewrite Hnil in Ht.
    + destruct (title (cells s)); simpl; done.
  - unfold settled. destruct (requests s !! i) as [[|]|]; try done.
    destruct o as [err | ok body]; simpl; [done|].
    destruct (ok && _); [|done]. destruct (returnsHome v); simpl; [|done].
    apply Forall_app. split; [done|]. by constructor.
Qed.

Lemma postable_run (evs : list Event) (s : State) :
  Forall (postable v) (out s) → Forall (postable v) (out (run v evs s)).
Proof.
  revert s. induction evs as [|e evs IH]; intros s Hs; simpl; [done|].
  by apply IH, postable_step.
Qed.

End DocForms.

(** X15.  Submitting a document form does one of three things.  Content
    that is empty or only whitespace is refused with the message that
    content is required; content longer than the form's limit is refused
    with the message that names the limit; any other content is posted,
    with the title left out when it is empty, and the loading flag is
    raised.  A refusal posts nothing and leaves title and content alone. *)
Theorem submit_validates (v : DocForm.Variant) (s : DocForm.State) :
  let c := DocForm.cells s in
  let s' := DocForm.submit v s in
  (trim (DocForm.content c) = []
   ∧ s' = DocForm.update
            (DocForm.setStatus (Some (false, lit "Content is required"))) s)
  ∨ (trim (DocForm.content c) ≠ []
     ∧ (DocForm.maxChars v < N.of_nat (length (DocForm.content c)))%N
     ∧ s' = DocForm.update
              (DocForm.setStatus (Some (false, DocForm.tooLong v))) s)
  ∨ (trim (DocForm.content c) ≠ []
     ∧ (N.of_nat (length (DocForm.content c)) ≤ DocForm.maxChars v)%N
     ∧ DocForm.out s'
       = DocForm.out s
         ++ [DocForm.DocsPost
               (if truthy (DocForm.title c) then Some (DocForm.title c) else None)
               (DocForm.content c)]
     ∧ DocForm.cells s'
       = DocForm.setLoading true (DocForm.setStatus None c)).
Proof.
  cbv zeta. unfold DocForm.submit.
  destruct (trim (DocForm.content (DocForm.cells s))) eqn:Ht; simpl.
  - by left.
  - right.
    destruct (N.ltb_spec (DocForm.maxChars v)
                (N.of_nat (length (DocForm.content (DocForm.cells s)))))
      as [Hlt | Hle].
    + by left.
    + right. by repeat split.
Qed.

(** X16.  When the awaited request settles, the loading flag is lowered
    whatever the outcome.  Only a response with an OK status whose body
    reports success empties the title and the content and shows the
    success message; a rejected request, a non-OK status, a body that does
    not parse or one that does not report success leave the title and the
    content as they are and show a failure message. *)
Theorem settle_keeps_text_on_failure
    (v : DocForm.Variant) (s : DocForm.State) (i : nat) (o : DocForm.Outcome) :
  DocForm.requests s !! i = Some DocForm.Awaiting →
  let s' := DocForm.settled v i o s in
  DocForm.loading (DocForm.cells s') = false
  ∧ if DocForm.succeeded o
    then DocForm.title (DocForm.cells s') = []
         ∧ DocForm.content (DocForm.cells s') = []
         ∧ DocForm.status (DocForm.cells s') = Some (true, DocForm.successMsg v)
    else DocForm.title (DocForm.cells s') = DocForm.title (DocForm.cells s)
         ∧ DocForm.content (DocForm.cells s') = DocForm.content (DocForm.cells s)
         ∧ ∃ msg, DocForm.status (DocForm.cells s') = Some (false, msg).
Proof.
  intros Hi. cbv zeta. unfold DocForm.settled. rewrite Hi.
  destruct o as [err | ok body]; simpl.
  - split; [done|]. repeat split. by eexists.
  - destruct (ok && _); [destruct (DocForm.returnsHome v)|]; simpl;
      (split; [done|]); repeat split; by eexists.
Qed.

(** X16 for a document that the server refuses with a reason. *)
Lemma settle_keeps_text_on_failure_witness :
  let s := DocForm.run DocForm.docIngest
             [DocForm.ContentChanged (lit "How to reset a password");
              DocForm.Submit] DocForm.init in
  let o := DocForm.Answered false
             (Some (DocForm.mkBody false None (Some (lit "quota exceeded")) None)) in
  DocForm.content (DocForm.cells (DocForm.settled DocForm.docIngest 0 o s))
  = lit "How to reset a password".
Proof.
  cbv zeta.
  refine (proj1 (proj2 (proj2 (settle_keeps_text_on_failure DocForm.docIngest
            (DocForm.run DocForm.docIngest
               [DocForm.ContentChanged (lit "How to reset a password");
                DocForm.Submit] DocForm.init)
            0 (DocForm.Answered false
                 (Some (DocForm.mkBody false None (Some (lit "quota exceeded")) None)))
            _)))).
  reflexivity.
Defined.

(** X17.  Along every run of a document form, the number of requests still
    awaited is one while the loading flag is set and zero otherwise: the
    form never has two requests in flight. *)
Theorem form_single_request (v : DocForm.Variant) (evs : list DocForm.Event) :
  DocForm.awaited (DocForm.run v evs DocForm.init)
  = if DocForm.loading (DocForm.cells (DocForm.run v evs DocForm.init))
    then 1 else 0.
Proof. by apply inStep_run. Qed.

(** X18.  Along every run of a document form, every body it posts has
    content that is not blank and not longer than the form's limit, and a
    title that is either left out or not empty. *)
Theorem form_posts_only_valid (v : DocForm.Variant) (evs : list DocForm.Event) :
  Forall (DocRules.postable v) (DocForm.out (DocForm.run v evs DocForm.init)).
Proof. apply postable_run. constructor. Qed.

Example doc_too_long_message :
  DocForm.tooLong DocForm.docIngest = lit "Content too long (max 20000 chars)".
Proof. reflexivity. Qed.

Example doc_blank_refused :
  DocForm.status (DocForm.cells
    (DocForm.run DocForm.docUpload
       [DocForm.ContentChanged (lit "   "); DocForm.Submit] DocForm.init))
  = Some (false, lit "Content is required").
Proof. reflexivity. Qed.

(** ** What the screen-sharing component asks for *)

Section Asking.

Import ScreenShare ShareRules.

Variable origin : jsstring.

Lemma count_snoc {A : Type} (p : A → bool) (l : list A) (a : A) :
  count p (l ++ [a]) = count p l + (if p a then 1 else 0).
Proof.
  unfold count. rewrite List.filter_app, length_app. simpl.
  by destruct (p a).
Qed.

Lemma count_cons {A : Type} (p : A → bool) (l : list A) (a : A) :
  count p (a :: l) = (if p a then 1 else 0) + count p l.
Proof. unfold count. simpl. by destruct (p a). Qed.

Lemma count_insert {A : Type} (p : A → bool) (l : list A) (i : nat) (a b : A) :
  l !! i = Some a →
  count p (<[ i := b ]> l) + (if p a then 1 else 0)
  = count p l + (if p b then 1 else 0).
Proof.
  revert i. induction l as [|x l IH]; intros i Hi; [done|].
  destruct i as [|i]; simpl in *.
  - injection Hi as ->. rewrite !count_cons. destruct (p a), (p b); lia.
  - specialize (IH i Hi). rewrite !count_cons. lia.
Qed.

Lemma out_stopScreenShare (p : Output → bool) (c : Cells) (s : State) :
  p OnStop = false → (∀ strm, p (StopTracks strm) = false) →
  count p (out (stopScreenShare c s)) = count p (out s).
Proof.
  intros Hstop Htr. unfold stopScreenShare.
  destruct (stream c) as [strm|]; simpl; rewrite !count_snoc, ?Hstop, ?Htr; lia.
Qed.

Lemma uploads_stopScreenShare (c : Cells) (s : State) :
  uploads (stopScreenShare c s) = uploads s.
Proof. unfold stopScreenShare. by destruct (stream c). Qed.

Lemma displays_step (s : State) (e : Event) :
  count isDisplayRequest (out (step origin s e))
  ≤ count isDisplayRequest (out s) + (if grantsToken e then 1 else 0).
Proof.
  destruct e; simpl.
  - lia.
  - destruct (_ && _); simpl; rewrite ?count_snoc; simpl; lia.
  - unfold tokenSettled. destruct (starts s !! i) as [t|]; [|destruct token; lia].
    destruct (st_stage t), token; simpl; rewrite ?count_snoc; simpl; lia.
  - unfold displaySettled. destruct (starts s !! i) as [t|]; [|lia].
    destruct (st_stage t), granted; simpl; rewrite ?count_snoc; simpl; lia.
  - destruct (showsSharingPanel s); [|lia]. by rewrite out_stopScreenShare; [lia| |].
  - unfold trackEnded. destruct (starts s !! i) as [t|]; [|lia].
    destruct (st_stage t); try lia. by rewrite out_stopScreenShare; [lia| |].
  - destruct (_ && _); simpl; rewrite ?count_snoc; simpl; lia.
  - unfold uploadSettled. destruct (uploads s !! i) as [[| |]|]; try lia.
    destruct o; simpl; rewrite ?count_snoc; simpl; lia.
  - unfold notified. destruct (uploads s !! i) as [[| |]|]; try lia.
    simpl; rewrite ?count_snoc; simpl; lia.
Qed.

Lemma starts_step (s : State) (e : Event) :
  count isOnStart (out (step origin s e))
  ≤ count isOnStart (out s) + (if grantsDisplay e then 1 else 0).
Proof.
  destruct e; simpl.
  - lia.
  - destruct (_ && _); simpl; rewrite ?count_snoc; simpl; lia.
  - unfold tokenSettled. destruct (starts s !! i) as [t|]; [|lia].
    destruct (st_stage t), token; simpl; rewrite ?count_snoc; simpl; lia.
  - unfold displaySettled. destruct (starts s !! i) as [t|]; [|destruct granted; lia].
    destruct (st_stage t), granted; simpl; rewrite ?count_snoc; simpl; lia.
  - destruct (showsSharingPanel s); [|lia]. by rewrite out_stopScreenShare; [lia| |].
  - unfold trackEnded. destruct (starts s !! i) as [t|]; [|lia].
    destruct (st_stage t); try lia. by rewrite out_stopScreenShare; [lia| |].
  - destruct (_ && _); simpl; rewrite ?count_snoc; simpl; lia.
  - unfold uploadSettled. destruct (uploads s !! i) as [[| |]|]; try lia.
    destruct o; simpl; rewrite ?count_snoc; simpl; lia.
  - unfold notified. destruct (uploads s !! i) as [[| |]|]; try lia.
    simpl; rewrite ?count_snoc; simpl; lia.
Qed.

Lemma sends_step (s : State) (e : Event) :
  count isChatSend (out (step origin s e))
  ≤ count isChatSend (out s) + (if acceptsUpload e then 1 else 0).
Proof.
  destruct e; simpl.
  - lia.
  - destruct (_ && _); simpl; rewrite ?count_snoc; simpl; lia.
  - unfold tokenSettled. destruct (starts s !! i) as [t|]; [|lia].
    destruct (st_stage t), token; simpl; rewrite ?count_snoc; simpl; lia.
  - unfold displaySettled. destruct (starts s !! i) as [t|]; [|lia].
    destruct (st_stage t), granted; simpl; rewrite ?count_snoc; simpl; lia.
  - destruct (showsSharingPanel s); [|lia]. by rewrite out_stopScreenShare; [lia| |].
  - unfold trackEnded. destruct (starts s !! i) as [t|]; [|lia].
    destruct (st_stage t); try lia. by rewrite out_stopScreenShare; [lia| |].
  - destruct (_ && _); simpl; rewrite ?count_snoc; simpl; lia.
  - unfold uploadSettled. destruct (uploads s !! i) as [[| |]|]; try (destruct o; lia).
    destruct o; simpl; rewrite ?count_snoc; simpl; lia.
  - unfold notified. destruct (uploads s !! i) as [[| |]|]; try lia.
    simpl; rewrite ?count_snoc; simpl; lia.
Qed.

Lemma counted_run (p : Output → bool) (q : Event → bool) :
  (∀ s e, count p (out (step origin s e))
          ≤ count p (out s) + (if q e then 1 else 0)) →
  ∀ evs s, count p (out (run origin evs s)) ≤ count p (out s) + count q evs.
Proof.
  intros Hstep evs. induction evs as [|e evs IH]; intros s; simpl.
  - unfold count at 3. simpl. lia.
  - etrans; [apply IH|]. rewrite count_cons. specialize (Hstep s e). lia.
Qed.

Lemma announced_step (s : State) (e : Event) :
  announced s → announced (step origin s e).
Proof.
  unfold announced. intros Hs. destruct e; simpl.
  - done.
  - destruct (_ && _); simpl; rewrite ?count_snoc; simpl; lia.
  - unfold tokenSettled. destruct (starts s !! i) as [t|]; [|done].
    destruct (st_stage t), token; simpl; rewrite ?count_snoc; simpl; lia.
  - unfold displaySettled. destruct (starts s !! i) as [t|]; [|done].
    destruct (st_stage t), granted; simpl; rewrite ?count_snoc; simpl; lia.
  - destruct (showsSharingPanel s); [|done].
    by rewrite !out_stopScreenShare, uploads_stopScreenShare.
  - unfold trackEnded. destruct (starts s !! i) as [t|]; [|done].
    destruct (st_stage t); try done.
    by rewrite !out_stopScreenShare, uploads_stopScreenShare.
  - destruct (_ && _); simpl; rewrite ?count_snoc; simpl; lia.
  - unfold uploadSettled. destruct (uploads s !! i) as [a|] eqn:Hi; [|done].
    destruct a; try done.
    destruct o; simpl; rewrite ?count_snoc; simpl.
    + pose proof (count_insert isNotifying _ i _ Finished Hi). simpl in *. lia.
    + pose proof (count_insert isNotifying _ i _ Finished Hi). simpl in *. lia.
    + pose proof (count_insert isNotifying _ i _
                    (Notifying (screenshotMessage origin ocr_text url)) Hi).
      simpl in *. lia.
  - unfold notified. destruct (uploads s !! i) as [a|] eqn:Hi; [|done].
    destruct a; try done. simpl. rewrite ?count_snoc. simpl.
    pose proof (count_insert isNotifying _ i _ Finished Hi). simpl in *. lia.
Qed.

Lemma announced_run (evs : list Event) (s : State) :
  announced s → announced (run origin evs s).
Proof.
  revert s. induction evs as [|e evs IH]; intros s Hs; simpl; [done|].
  by apply IH, announced_step.
Qed.

End Asking.

(** X19.  Along every run of the screen-sharing component, the screen
    picker ([getDisplayMedia]) is opened at most as often as the backend
    granted a token, and the page is told that sharing started ([onStart])
    at most as often as the user granted a stream: a refused token never
    leads to the picker, and a dismissed picker never starts a session. *)
Theorem picker_only_after_token
    (origin : jsstring) (evs : list ScreenShare.Event) :
  let s := ScreenShare.run origin evs ScreenShare.init in
  ShareRules.count ShareRules.isDisplayRequest (ScreenShare.out s)
  ≤ ShareRules.count ShareRules.grantsToken evs
  ∧ ShareRules.count ShareRules.isOnStart (ScreenShare.out s)
    ≤ ShareRules.count ShareRules.grantsDisplay evs.
Proof.
  cbv zeta. split.
  - apply (counted_run origin _ _ (displays_step origin) evs ScreenShare.init).
  - apply (counted_run origin _ _ (starts_step origin) evs ScreenShare.init).
Qed.

(** X20.  Along every run of the screen-sharing component, an [ai-message]
    event is dispatched only for a screenshot whose announcement was sent
    to the chat service, and an announcement is sent only for an upload
    that the server accepted: the dispatches number at most the
    announcements, and these at most the accepted uploads. *)
Theorem dispatch_only_for_accepted_upload
    (origin : jsstring) (evs : list ScreenShare.Event) :
  let s := ScreenShare.run origin evs ScreenShare.init in
  ShareRules.count ShareRules.isDispatch (ScreenShare.out s)
  ≤ ShareRules.count ShareRules.isChatSend (ScreenShare.out s)
  ∧ ShareRules.count ShareRules.isChatSend (ScreenShare.out s)
    ≤ ShareRules.count ShareRules.acceptsUpload evs.
Proof.
  cbv zeta. split.
  - assert (ShareRules.announced (ScreenShare.run origin evs ScreenShare.init)) as H.
    { apply announced_run. unfold ShareRules.announced, ShareRules.count. simpl. lia. }
    unfold ShareRules.announced in H. lia.
  - apply (counted_run origin _ _ (sends_step origin) evs ScreenShare.init).
Qed.

(** ** The play button of a message *)

Section PlayButton.

Import SpeechOutput.

Variable text : jsstring.

Lemma speech_awaited_insert (l : list Request) (i : nat) :
  l !! i = Some Awaiting →
  S (length (filter (λ r, r = Awaiting) (<[ i := Settled ]> l)))
  = length (filter (λ r, r = Awaiting) l).
Proof.
  revert i. induction l as [|x l IH]; intros i Hi; [done|].
  destruct i as [|i]; simpl in *.
  - injection Hi as ->. rewrite filter_cons_False by done.
    by rewrite filter_cons_True by done.
  - specialize (IH i Hi). rewrite !filter_cons.
    case_decide; simpl; lia.
Qed.

Lemma speech_inStep_step (s : State) (e : Event) :
  inStep s → inStep (step text s e).
Proof.
  unfold inStep, awaited. intros [Hs Hp]. destruct e; simpl.
  - destruct (isPlaying (cells s)) eqn:Hpl, (isLoading (cells s)) eqn:Hl;
      simpl; rewrite ?Hpl, ?Hl; try done.
    unfold playAudio. destruct (_ || _); simpl; rewrite ?Hpl, ?Hl; [done|].
    rewrite filter_app, length_app, Hs. by rewrite filter_cons_True.
  - destruct (isPlaying (cells s)) eqn:Hpl; simpl; [|by rewrite Hpl].
    split; [done|]. intros Hl. specialize (Hp Hl). congruence.
  - done.
  - unfold settled. destruct (requests s !! i) as [[|]|] eqn:Hi; try done.
    pose proof (speech_awaited_insert _ i Hi) as Hins.
    assert (length (filter (λ r, r = Awaiting) (<[ i := Settled ]> (requests s))) = 0)
      as Hz by (destruct (isLoading (cells s)); lia).
    by destruct o.
Qed.

Lemma speech_inStep_run (evs : list Event) (s : State) :
  inStep s → inStep (run text evs s).
Proof.
  revert s. induction evs as [|e evs IH]; intros s Hs; simpl; [done|].
  by apply IH, speech_inStep_step.
Qed.

Lemma posted_step (s : State) (e : Event) :
  Forall (posted text) (out s) → Forall (posted text) (out (step text s e)).
Proof.
  intros Hs. destruct e; simpl.
  - destruct (_ && _); [|done]. unfold playAudio.
    destruct (truthy text); simpl; [|done].
    destruct (truthy (trim text)) eqn:Ht; simpl; [|done].
    apply Forall_app. split; [done|]. constructor; [|done]. simpl.
    split; [done|]. intros Hnil. by rewrite Hnil in Ht.
  - destruct (isPlaying (cells s)); [|done]. simpl.
    apply Forall_app. split; [done|]. by constructor.
  - done.
  - unfold settled. destruct (requests s !! i) as [[|]|]; try done.
    destruct o; simpl; (apply Forall_app; split; [done|]; by constructor).
Qed.

Lemma posted_run (evs : list Event) (s : State) :
  Forall (posted text) (out s) → Forall (posted text) (out (run text evs s)).
Proof.
  revert s. induction evs as [|e evs IH]; intros s Hs; simpl; [done|].
  by apply IH, posted_step.
Qed.

End PlayButton.

(** X21.  Along every run of a message's play button, every synthesis
    request carries the message text exactly as the component was given
    it, and is sent only when that text is not blank: a message that is
    empty or only whitespace is never sent for synthesis by the button. *)
Theorem play_button_posts_given_text
    (text : jsstring) (evs : list SpeechOutput.Event) :
  Forall (SpeechOutput.posted text)
    (SpeechOutput.out (SpeechOutput.run text evs SpeechOutput.init)).
Proof. apply posted_run. constructor. Qed.

(** X22.  Along every run of a message's play button, one synthesis
    request is awaited while the loading flag is set and none otherwise,
    and nothing is playing while a request is awaited: the button never
    has two requests in flight. *)
Theorem play_button_single_request
    (text : jsstring) (evs : list SpeechOutput.Event) :
  let s := SpeechOutput.run text evs SpeechOutput.init in
  SpeechOutput.awaited s
  = (if SpeechOutput.isLoading (SpeechOutput.cells s) then 1 else 0)
  ∧ SpeechOutput.isLoading (SpeechOutput.cells s)
    && SpeechOutput.isPlaying (SpeechOutput.cells s) = false.
Proof.
  cbv zeta.
  destruct (speech_inStep_run text evs SpeechOutput.init) as [Hone Hquiet];
    [by split|].
  split; [done|].
  destruct (SpeechOutput.isLoading _); [|done]. by rewrite Hquiet.
Qed.

Example play_button_blank :
  SpeechOutput.run (lit "   ")
    [SpeechOutput.ClickPlay; SpeechOutput.ClickPlay] SpeechOutput.init
  = SpeechOutput.init.
Proof. reflexivity. Qed.

Example play_button_failure_alerts :
  SpeechOutput.out
    (SpeechOutput.run (lit "**Hi**")
       [SpeechOutput.ClickPlay;
        SpeechOutput.RequestSettled 0 ChatWindow.ResponseNotOk] SpeechOutput.init)
  = [SpeechOutput.TtsPost (lit "**Hi**");
     SpeechOutput.Alert (lit "Could not play audio. Check console for details.")].
Proof. reflexivity. Qed.
